(** * Principal ideals in Z and K[x]: a shallow embedding of [Hard.py]

    The program computes a generator of the ideal spanned by a list of
    ring elements (integers, or polynomials given by their coefficient
    lists in ascending degree) and tests ideal membership by division.

    Python integers are modelled by [Z]; Python floats by the binary64
    primitive floats of the Standard Library, whose operations are the
    IEEE 754 ones that CPython uses; coefficient lists hold floats, as the
    class documents them ([list[float]]).  Exceptions are explicit results.
    Loops that Python runs without a bound ([while len(f) >= len(g)],
    [while any(g)]) take an iteration budget and answer [OutOfFuel] when
    it is used up; Euclid's loop on integers and the trimming loop always
    terminate and are total functions. *)

From Stdlib Require Import ZArith Znumtheory List Permutation Lia Bool Floats.
From Equations Require Import Equations.
Import ListNotations.

(** ** Values, exceptions and results *)

(** What [RingElement.data] holds: an [int], or a [list] of float
    coefficients ([a0, a1, ..., an] stands for a0 + a1*x + ... + an*x^n). *)
Inductive value : Type :=
| PyInt (n : Z)
| PyList (coeffs : list float).

(** [class RingElement]: [__init__] stores [data] and derives
    [is_polynomial = isinstance(data, list)]; neither attribute is ever
    reassigned, so the flag is a function of the stored value. *)
Record RingElement : Type := mkRingElement { data : value }.

Definition is_polynomial (e : RingElement) : bool :=
  match data e with
  | PyList _ => true
  | PyInt _ => false
  end.

(** The exceptions the program can end with: the [ValueError] raised by
    [gcd_ring_elements] itself, and the built-in errors of the operations
    it applies. *)
Inductive exn : Type :=
| ValueError
| TypeError
| IndexError
| ZeroDivisionError.

Inductive result (A : Type) : Type :=
| Ok (a : A)
| Raise (e : exn)
| OutOfFuel.

Arguments Ok {A} a.
Arguments Raise {A} e.
Arguments OutOfFuel {A}.

Definition bind {A B : Type} (c : result A) (k : A -> result B) : result B :=
  match c with
  | Ok a => k a
  | Raise e => Raise e
  | OutOfFuel => OutOfFuel
  end.

Notation "x <- c ;; k" := (bind c (fun x => k))
  (at level 61, c at next level, right associativity).

(** A [for] loop threading an accumulator through a list. *)
Fixpoint foldM {A B : Type} (step : A -> B -> result A) (l : list B) (a : A)
  : result A :=
  match l with
  | [] => Ok a
  | x :: rest => a' <- step a x ;; foldM step rest a'
  end.

(** A list comprehension whose element expression may raise. *)
Fixpoint mapM {A B : Type} (f : A -> result B) (l : list A) : result (list B) :=
  match l with
  | [] => Ok []
  | x :: rest => y <- f x ;; ys <- mapM f rest ;; Ok (y :: ys)
  end.

(** The error taxonomy of the specification, and the exception of the
    program that stands for each kind.  The program declares no exception
    class of its own: an empty list is reported by [ValueError], a zero
    divisor by [ZeroDivisionError]; [TypeError] and [IndexError] are
    faults of the interpreter that belong to no kind. *)
Inductive spec_error : Type :=
| EmptyInputError
| MixedRingError
| DivisionByZeroError.

Definition spec_error_of (e : exn) : option spec_error :=
  match e with
  | ValueError => Some EmptyInputError
  | ZeroDivisionError => Some DivisionByZeroError
  | TypeError => None
  | IndexError => None
  end.

(** ** Python primitives *)

(** The literal [1e-12] denotes the binary64 number nearest to 10^-12. *)
Definition eps : float := 0x1.19799812dea11p-40%float.

(** [abs(c) < 1e-12] *)
Definition negligible (c : float) : bool :=
  PrimFloat.ltb (PrimFloat.abs c) eps.

(** Truth value of a float, as [any] reads it: [c != 0.0]. *)
Definition truthy (c : float) : bool := negb (PrimFloat.eqb c 0%float).

(** [any(g)] *)
Definition any (g : list float) : bool := existsb truthy g.

(** [abs(v)]: defined on [int], a [TypeError] on a list. *)
Definition py_abs (v : value) : result Z :=
  match v with
  | PyInt n => Ok (Z.abs n)
  | PyList _ => Raise TypeError
  end.

(** [v[:]]: a copy of a list, a [TypeError] on an [int]. *)
Definition py_slice (v : value) : result (list float) :=
  match v with
  | PyList l => Ok l
  | PyInt _ => Raise TypeError
  end.

(** [l[-1]] *)
Definition py_last (l : list float) : result float :=
  match l with
  | [] => Raise IndexError
  | _ :: _ => Ok (last l 0%float)
  end.

(** [x / y] on floats *)
Definition py_div (x y : float) : result float :=
  if PrimFloat.eqb y 0%float then Raise ZeroDivisionError
  else Ok (PrimFloat.div x y).

(** [a % b]: floor modulo on [int]s, no [%] between an [int] and a list. *)
Definition py_mod (a b : value) : result Z :=
  match a, b with
  | PyInt x, PyInt y => if (y =? 0)%Z then Raise ZeroDivisionError else Ok (x mod y)%Z
  | _, _ => Raise TypeError
  end.

(** [l[i]] and [l[i] = x] for a non-negative index. *)
Definition py_getitem (l : list float) (i : nat) : result float :=
  match nth_error l i with
  | Some x => Ok x
  | None => Raise IndexError
  end.

Fixpoint list_set (l : list float) (i : nat) (x : float) : list float :=
  match l, i with
  | [], _ => []
  | _ :: rest, O => x :: rest
  | y :: rest, S j => y :: list_set rest j x
  end.

Definition py_setitem (l : list float) (i : nat) (x : float) : result (list float) :=
  if (i <? length l)%nat then Ok (list_set l i x) else Raise IndexError.

(** ** Integer GCD *)

(** [while b != 0: a, b = b, a % b] followed by [return a]. *)
Equations? gcd_two_loop (a b : Z) : Z by wf (Z.abs_nat b) lt :=
  gcd_two_loop a b with Z.eq_dec b 0 := {
    | left _ := a ;
    | right _ := gcd_two_loop b (a mod b)%Z }.
Proof.
  pose proof (Z.mod_bound_or a b n). lia.
Qed.

(** [gcd_two]: [a, b = abs(a), abs(b)], then Euclid's loop. *)
Definition gcd_two (a b : value) : result value :=
  a' <- py_abs a ;;
  b' <- py_abs b ;;
  Ok (PyInt (gcd_two_loop a' b')).

(** [functools.reduce(function, iterable)] without initial value: the
    first item starts the accumulator, and a one-item list is returned
    without any call of [function]. *)
Definition reduce {A : Type} (function : A -> A -> result A) (l : list A)
  : result A :=
  match l with
  | [] => Raise TypeError
  | x :: rest => foldM function rest x
  end.

Definition gcd_integers (numbers : list value) : result value :=
  reduce gcd_two numbers.

(** ** Polynomial division *)

(** One pass of [for i in range(len(g)): f[i + deg_diff] -= coef * g[i]]. *)
Definition subtract_at (coef : float) (g : list float) (deg_diff : nat)
  (f : list float) (i : nat) : result (list float) :=
  fi <- py_getitem f (i + deg_diff) ;;
  gi <- py_getitem g i ;;
  py_setitem f (i + deg_diff) (PrimFloat.sub fi (PrimFloat.mul coef gi)).

Definition subtract_multiple (f g : list float) (coef : float) (deg_diff : nat)
  : result (list float) :=
  foldM (subtract_at coef g deg_diff) (seq 0 (length g)) f.

(** [while f and abs(f[-1]) < 1e-12: f.pop()]; every round pops one entry,
    so [len(f)] rounds are enough. *)
Fixpoint trim_loop (rounds : nat) (f : list float) : list float :=
  match rounds with
  | O => f
  | S k =>
      match f with
      | [] => f
      | _ :: _ => if negligible (last f 0%float) then trim_loop k (removelast f) else f
      end
  end.

Definition trim (f : list float) : list float := trim_loop (length f) f.

(** The first half of the body of the division loop:
    [coef = f[-1] / g[-1]], [deg_diff = len(f) - len(g)] and the [for] loop
    that subtracts [coef * x^deg_diff * g] from [f]. *)
Definition subtract_leading (f g : list float) : result (list float) :=
  fl <- py_last f ;;
  gl <- py_last g ;;
  coef <- py_div fl gl ;;
  subtract_multiple f g coef (length f - length g).

(** The whole body: subtract, then trim.  The loop runs it only under its
    guard [len(f) >= len(g)], where [deg_diff] is not negative. *)
Definition eliminate (f g : list float) : result (list float) :=
  f' <- subtract_leading f g ;;
  Ok (trim f').

(** [while len(f) >= len(g): ...], the loop written out in [gcd_polynomials]
    (lines 75-81) and again in [is_in_ideal] (lines 131-137).  [fuel] bounds
    the number of times the body runs. *)
Fixpoint poly_rem (fuel : nat) (f g : list float) : result (list float) :=
  if (length f <? length g)%nat then Ok f
  else
    match fuel with
    | O => OutOfFuel
    | S k => f' <- eliminate f g ;; poly_rem k f' g
    end.

(** ** Polynomial GCD *)

(** [while any(g): (divide f by g); f, g = g, f].  [fuel] bounds the rounds
    of this loop and those of each division inside it. *)
Fixpoint euclid (fuel : nat) (f g : list float) : result (list float) :=
  if any g then
    match fuel with
    | O => OutOfFuel
    | S k => r <- poly_rem fuel f g ;; euclid k g r
    end
  else Ok f.

(** The body of [for p in polys[1:]]: Euclid on [(d, p)], then
    [lc = f[-1]; d = [c / lc for c in f]]. *)
Definition fold_in (fuel : nat) (d : list float) (p : RingElement)
  : result (list float) :=
  g <- py_slice (data p) ;;
  f <- euclid fuel d g ;;
  lc <- py_last f ;;
  mapM (fun c => py_div c lc) f.

Definition gcd_polynomials (fuel : nat) (polys : list RingElement)
  : result RingElement :=
  match polys with
  | [] => Raise IndexError
  | p0 :: rest =>
      d0 <- py_slice (data p0) ;;
      d <- foldM (fold_in fuel) rest d0 ;;
      Ok (mkRingElement (PyList d))
  end.

(** ** Dispatch and ideal membership *)

Definition gcd_ring_elements (fuel : nat) (elements : list RingElement)
  : result RingElement :=
  match elements with
  | [] => Raise ValueError
  | e0 :: _ =>
      if negb (is_polynomial e0) then
        d <- gcd_integers (map data elements) ;;
        Ok (mkRingElement d)
      else gcd_polynomials fuel elements
  end.

Definition is_in_ideal (fuel : nat) (f : RingElement) (generators : list RingElement)
  : result bool :=
  d <- gcd_ring_elements fuel generators ;;
  if negb (is_polynomial f) then
    r <- py_mod (data f) (data d) ;;
    Ok (r =? 0)%Z
  else
    f_coef <- py_slice (data f) ;;
    d_coef <- py_slice (data d) ;;
    r <- poly_rem fuel f_coef d_coef ;;
    Ok (forallb negligible r).

(** Shorthands for the two variants. *)
Definition Integer (n : Z) : RingElement := mkRingElement (PyInt n).
Definition Polynomial (coeffs : list float) : RingElement := mkRingElement (PyList coeffs).

(** ** Notions used in the statements *)

(** A result is one of the kinds of failure the specification names. *)
Definition fails_with {A : Type} (r : result A) (s : spec_error) : Prop :=
  exists e, r = Raise e /\ spec_error_of e = Some s.

(** What the claim asks of the returned integer. *)
Definition largest_common_divisor (numbers : list Z) (d : Z) : Prop :=
  (forall x, In x numbers -> (d | x))
  /\ (forall c, (forall x, In x numbers -> (c | x)) -> c <= d).

(** Degree as the specification counts it: the index of the last entry. *)
Definition degree (p : list float) : Z := Z.of_nat (length p) - 1.

(** During the first [rounds] rounds of the division of [f] by [g], every
    subtraction leaves a leading coefficient that the trimming loop
    removes, as it would in exact arithmetic. *)
Fixpoint cancels_along (rounds : nat) (f g : list float) : bool :=
  if (length f <? length g)%nat then true
  else
    match rounds with
    | O => true
    | S k =>
        match subtract_leading f g with
        | Ok f' => negligible (last f' 0%float) && cancels_along k (trim f') g
        | Raise _ => false
        | OutOfFuel => false
        end
    end.

(** The division of [f] by [g] leaves a remainder, and it is the zero
    polynomial or of smaller degree than [g]. *)
Definition leaves_remainder_below_divisor (f g : list float) : Prop :=
  exists fuel r, poly_rem fuel f g = Ok r
                 /\ (r = [] \/ (degree r < degree g)%Z).

(** The division loop is over after at most [degree f + 1] rounds. *)
Definition terminates_within_degree (f g : list float) : Prop :=
  exists r, poly_rem (Z.to_nat (degree f + 1)) f g = Ok r.

(** The ideal of Z that a list of integers generates: the finite sums of
    integer multiples of its elements. *)
Inductive span (numbers : list Z) : Z -> Prop :=
| span_zero : span numbers 0%Z
| span_add (a c n : Z) :
    In n numbers -> span numbers a -> span numbers (a + c * n)%Z.

(** A float that is NaN or an infinity. *)
Definition non_finite (c : float) : Prop :=
  c = nan \/ c = infinity \/ c = neg_infinity.

(** A coefficient list whose trimming loop has nothing to pop. *)
Definition trimmed (f : list float) : Prop :=
  f = [] \/ negligible (last f 0%float) = false.

(** The result is not the [ValueError] of an empty input. *)
Definition no_ValueError {A : Type} (r : result A) : Prop := r <> Raise ValueError.

(** * Properties *)

(** ** Results and binds *)

Lemma bind_Ok_inv {A B : Type} (c : result A) (k : A -> result B) (b : B) :
  bind c k = Ok b -> exists a, c = Ok a /\ k a = Ok b.
Proof.
  destruct c as [a | e | ]; simpl; intros H; try discriminate.
  exists a. split; [reflexivity | exact H].
Qed.

Lemma bind_Raise_inv {A B : Type} (c : result A) (k : A -> result B) (e : exn) :
  bind c k = Raise e -> c = Raise e \/ exists a, c = Ok a /\ k a = Raise e.
Proof.
  destruct c as [a | e' | ]; simpl; intros H; try discriminate.
  - right. exists a. split; [reflexivity | exact H].
  - left. injection H as ->. reflexivity.
Qed.

(** ** Euclid's loop on integers *)

Open Scope Z_scope.

Lemma gcd_two_loop_gcd (a b : Z) :
  0 <= a -> 0 <= b -> gcd_two_loop a b = Z.gcd a b.
Proof.
  funelim (gcd_two_loop a b); intros Ha Hb.
  - subst b. rewrite Z.gcd_0_r. symmetry. apply Z.abs_eq. exact Ha.
  - match goal with IH : _ -> _ -> gcd_two_loop _ _ = Z.gcd _ _ |- _ => rewrite IH end.
    + rewrite Z.gcd_comm, Z.gcd_mod by assumption. apply Z.gcd_comm.
    + exact Hb.
    + apply Z.mod_pos_bound. lia.
Qed.

Lemma gcd_two_int (a b : Z) :
  gcd_two (PyInt a) (PyInt b) = Ok (PyInt (Z.gcd a b)).
Proof.
  unfold gcd_two. simpl.
  rewrite gcd_two_loop_gcd by apply Z.abs_nonneg.
  rewrite Z.gcd_abs_l, Z.gcd_abs_r. reflexivity.
Qed.

(** Folding further integers into an integer accumulator. *)
Lemma foldM_gcd_two (rest : list Z) (acc : Z) :
  foldM gcd_two (map PyInt rest) (PyInt acc) = Ok (PyInt (fold_left Z.gcd rest acc)).
Proof.
  revert acc. induction rest as [| x rest IH]; intros acc; cbn [map foldM fold_left].
  - reflexivity.
  - rewrite gcd_two_int. cbn [bind]. apply IH.
Qed.

Lemma fold_gcd_divides (rest : list Z) (acc : Z) :
  (fold_left Z.gcd rest acc | acc)
  /\ forall x, In x rest -> (fold_left Z.gcd rest acc | x).
Proof.
  revert acc. induction rest as [| y rest IH]; intros acc; simpl.
  - split; [apply Z.divide_refl | intros x []].
  - destruct (IH (Z.gcd acc y)) as [Hacc Hrest]. split.
    + eapply Z.divide_trans; [exact Hacc | apply Z.gcd_divide_l].
    + intros x [<- | Hx].
      * eapply Z.divide_trans; [exact Hacc | apply Z.gcd_divide_r].
      * apply Hrest. exact Hx.
Qed.

Lemma fold_gcd_greatest (rest : list Z) (acc c : Z) :
  (c | acc) -> (forall x, In x rest -> (c | x)) -> (c | fold_left Z.gcd rest acc).
Proof.
  revert acc. induction rest as [| y rest IH]; intros acc Hacc Hrest; simpl.
  - exact Hacc.
  - apply IH.
    + apply Z.gcd_greatest; [exact Hacc | apply Hrest; left; reflexivity].
    + intros x Hx. apply Hrest. right. exact Hx.
Qed.

Lemma fold_gcd_nonneg (rest : list Z) (acc : Z) :
  rest <> [] -> 0 <= fold_left Z.gcd rest acc.
Proof.
  revert acc. induction rest as [| y rest IH]; intros acc Hne; [congruence |].
  simpl. destruct rest as [| z rest'].
  - simpl. apply Z.gcd_nonneg.
  - apply IH. discriminate.
Qed.

Lemma gcd_integers_ints (x : Z) (rest : list Z) :
  gcd_integers (map PyInt (x :: rest)) = Ok (PyInt (fold_left Z.gcd rest x)).
Proof. unfold gcd_integers, reduce. cbn [map]. apply foldM_gcd_two. Qed.

(** C2 fails as stated: on [[0, 0]] the program returns 0, as the
    specification asks, yet 1 divides every element and is larger. *)
Lemma gcd_integers_zeros_not_largest :
  gcd_integers (map PyInt [0; 0]) = Ok (PyInt 0)
  /\ ~ largest_common_divisor [0; 0] 0.
Proof.
  split; [reflexivity |].
  intros [_ Hmax]. specialize (Hmax 1).
  assert (H : 1 <= 0); [| lia].
  apply Hmax. intros x _. apply Z.divide_1_l.
Qed.

(** C2 (amended): for every non-empty list of integers, [gcd_integers]
    returns an integer that divides every element and that every common
    divisor of the elements divides; when the list has two or more
    elements, not all zero, it is positive and the largest integer that
    divides every element. *)
Theorem gcd_integers_greatest (numbers : list Z) :
  numbers <> [] ->
  exists d, gcd_integers (map PyInt numbers) = Ok (PyInt d)
    /\ (forall x, In x numbers -> (d | x))
    /\ (forall c, (forall x, In x numbers -> (c | x)) -> (c | d))
    /\ ((2 <= length numbers)%nat -> (exists x, In x numbers /\ x <> 0) ->
        0 < d /\ largest_common_divisor numbers d).
Proof.
  destruct numbers as [| x rest]; [congruence | intros _].
  exists (fold_left Z.gcd rest x). split; [apply gcd_integers_ints |].
  destruct (fold_gcd_divides rest x) as [Hx Hrest].
  assert (Hdiv : forall y, In y (x :: rest) -> (fold_left Z.gcd rest x | y)).
  { intros y [<- | Hy]; [exact Hx | apply Hrest; exact Hy]. }
  assert (Hgreat : forall c, (forall y, In y (x :: rest) -> (c | y)) ->
                             (c | fold_left Z.gcd rest x)).
  { intros c Hc. apply fold_gcd_greatest.
    - apply Hc. left. reflexivity.
    - intros y Hy. apply Hc. right. exact Hy. }
  split; [exact Hdiv | split; [exact Hgreat |]].
  intros Hlen [y [Hy Hy0]].
  assert (Hpos : 0 < fold_left Z.gcd rest x).
  { assert (Hnn : 0 <= fold_left Z.gcd rest x).
    { apply fold_gcd_nonneg. destruct rest; [simpl in Hlen; lia | discriminate]. }
    destruct (Z.eq_dec (fold_left Z.gcd rest x) 0) as [E | E]; [| lia].
    exfalso. apply Hy0. specialize (Hdiv y Hy). rewrite E in Hdiv.
    apply Z.divide_0_l. exact Hdiv. }
  split; [exact Hpos |]. split; [exact Hdiv |].
  intros c Hc. apply Z.divide_pos_le; [exact Hpos | apply Hgreat; exact Hc].
Qed.

Lemma gcd_integers_greatest_witness :
  exists d, gcd_integers (map PyInt [12; 18]) = Ok (PyInt d)
    /\ (forall x, In x [12; 18] -> (d | x))
    /\ (forall c, (forall x, In x [12; 18] -> (c | x)) -> (c | d))
    /\ ((2 <= length [12; 18])%nat -> (exists x, In x [12; 18] /\ x <> 0) ->
        0 < d /\ largest_common_divisor [12; 18] d).
Proof. apply (gcd_integers_greatest [12; 18]). discriminate. Defined.

(** C5: [reduce] hands a one-element list back without calling [gcd_two],
    so the absolute value taken at the entry of [gcd_two] is never applied:
    [gcd_integers([-7])] is [-7], which is negative and is not [|-7|]. *)
Theorem gcd_integers_singleton_as_is :
  (forall v, gcd_integers [PyInt v] = Ok (PyInt v))
  /\ gcd_integers [PyInt (-7)] = Ok (PyInt (-7))
  /\ -7 < 0 /\ -7 <> Z.abs (-7).
Proof.
  split; [reflexivity |]. split; [reflexivity |]. split; [lia | discriminate].
Qed.

Close Scope Z_scope.

(** ** Floats *)

(** A zero divisor, which [/] refuses, is in particular negligible. *)
Lemma zero_negligible (c : float) :
  PrimFloat.eqb c 0%float = true -> negligible c = true.
Proof.
  unfold negligible. rewrite eqb_spec, ltb_spec, abs_spec.
  replace (Prim2SF 0) with (S754_zero false) by reflexivity.
  set (e := Prim2SF eps). vm_compute in e. subst e.
  destruct (Prim2SF c) as [s | s | | s m e]; try destruct s; simpl;
    try discriminate; reflexivity.
Qed.

Lemma py_div_nonzero (x y : float) :
  negligible y = false -> py_div x y = Ok (PrimFloat.div x y).
Proof.
  intros Hy. unfold py_div.
  destruct (PrimFloat.eqb y 0) eqn:E; [| reflexivity].
  apply zero_negligible in E. congruence.
Qed.

(** ** The subtraction and trimming loops *)

Lemma list_set_length (l : list float) (i : nat) (x : float) :
  length (list_set l i x) = length l.
Proof.
  revert i. induction l as [| y l IH]; intros [| i]; simpl; try reflexivity.
  now rewrite IH.
Qed.

Lemma removelast_length (l : list float) :
  length (removelast l) = pred (length l).
Proof.
  induction l as [| x [| y l] IH]; try reflexivity.
  change (removelast (x :: y :: l)) with (x :: removelast (y :: l)).
  cbn [length] in *. now rewrite IH.
Qed.

Lemma subtract_at_ok (coef : float) (g f : list float) (deg_diff i : nat) :
  i < length g -> i + deg_diff < length f ->
  exists f', subtract_at coef g deg_diff f i = Ok f' /\ length f' = length f.
Proof.
  intros Hg Hf. unfold subtract_at, py_getitem, py_setitem.
  destruct (nth_error f (i + deg_diff)) as [fi |] eqn:Ef;
    [| apply nth_error_None in Ef; lia].
  destruct (nth_error g i) as [gi |] eqn:Eg;
    [| apply nth_error_None in Eg; lia].
  cbn [bind]. apply Nat.ltb_lt in Hf. rewrite Hf.
  eexists. split; [reflexivity | apply list_set_length].
Qed.

(** The [for] loop stays inside [f] and keeps its length. *)
Lemma foldM_subtract_ok (coef : float) (g : list float) (deg_diff n : nat) :
  forall (s : nat) (f : list float),
    s + n <= length g -> s + n + deg_diff <= length f ->
    exists f', foldM (subtract_at coef g deg_diff) (seq s n) f = Ok f'
               /\ length f' = length f.
Proof.
  induction n as [| n IH]; intros s f Hg Hf; cbn [seq foldM].
  - exists f. split; reflexivity.
  - destruct (subtract_at_ok coef g f deg_diff s) as [f1 [E1 L1]]; try lia.
    rewrite E1. cbn [bind].
    destruct (IH (S s) f1) as [f2 [E2 L2]]; try lia.
    exists f2. split; [exact E2 | congruence].
Qed.

Lemma subtract_multiple_ok (f g : list float) (coef : float) (deg_diff : nat) :
  length g + deg_diff <= length f ->
  exists f', subtract_multiple f g coef deg_diff = Ok f' /\ length f' = length f.
Proof.
  intros H. unfold subtract_multiple. apply foldM_subtract_ok; simpl; lia.
Qed.

Lemma py_last_cons (l : list float) :
  l <> [] -> py_last l = Ok (last l 0%float).
Proof. destruct l; [congruence | reflexivity]. Qed.

Lemma nonempty_length (l : list float) : l <> [] <-> 0 < length l.
Proof. destruct l; simpl; split; intros; try congruence; lia. Qed.

Lemma subtract_leading_ok (f g : list float) :
  g <> [] -> negligible (last g 0%float) = false -> length g <= length f ->
  exists f', subtract_leading f g = Ok f' /\ length f' = length f.
Proof.
  intros Hg Hlc Hlen. unfold subtract_leading.
  assert (Hf : f <> []).
  { apply nonempty_length. apply nonempty_length in Hg. lia. }
  rewrite (py_last_cons f Hf), (py_last_cons g Hg). cbn [bind].
  rewrite py_div_nonzero by exact Hlc. cbn [bind].
  apply subtract_multiple_ok. lia.
Qed.

Lemma trim_loop_length (rounds : nat) (f : list float) :
  length (trim_loop rounds f) <= length f.
Proof.
  revert f. induction rounds as [| k IH]; intros f; simpl; [lia |].
  destruct f as [| c f']; [simpl; lia |].
  destruct (negligible (last (c :: f') 0%float)); [| lia].
  etransitivity; [apply IH |]. rewrite removelast_length. lia.
Qed.

Lemma trim_length (f : list float) : length (trim f) <= length f.
Proof. apply trim_loop_length. Qed.

(** A negligible leading coefficient is popped. *)
Lemma trim_shrinks (f : list float) :
  f <> [] -> negligible (last f 0%float) = true -> length (trim f) < length f.
Proof.
  intros Hf Hn. unfold trim. destruct f as [| c f']; [congruence |].
  cbn [length trim_loop]. rewrite Hn.
  pose proof (trim_loop_length (length f') (removelast (c :: f'))) as H.
  rewrite removelast_length in H. cbn [length pred] in H. lia.
Qed.

(** One round of the division loop (run under its guard) never lengthens
    the dividend, and shortens it when the subtraction cancels its leading
    coefficient. *)
Lemma eliminate_length (f g f' : list float) :
  length g <= length f ->
  eliminate f g = Ok f' ->
  length f' <= length f
  /\ (f <> [] -> cancels_along 1 f g = true -> length f' < length f).
Proof.
  unfold eliminate. intros Hle H.
  apply bind_Ok_inv in H. destruct H as [f1 [E1 E2]].
  injection E2 as <-.
  assert (Hlen : length f1 = length f).
  { unfold subtract_leading in E1.
    apply bind_Ok_inv in E1. destruct E1 as [fl [_ E1]].
    apply bind_Ok_inv in E1. destruct E1 as [gl [_ E1]].
    apply bind_Ok_inv in E1. destruct E1 as [coef [_ E1]].
    destruct (subtract_multiple_ok f g coef (length f - length g)) as [f2 [E L]];
      [lia | congruence]. }
  split.
  - rewrite <- Hlen. apply trim_length.
  - intros Hf Hc. cbn [cancels_along] in Hc.
    apply Nat.ltb_ge in Hle. rewrite Hle, E1 in Hc.
    apply andb_prop in Hc. destruct Hc as [Hn _].
    rewrite <- Hlen. apply trim_shrinks; [| exact Hn].
    apply nonempty_length. apply nonempty_length in Hf. lia.
Qed.

(** ** The division loop *)

Lemma degree_succ (f : list float) : Z.to_nat (degree f + 1) = length f.
Proof. unfold degree. lia. Qed.

(** Once the loop is over within a budget, a larger budget changes nothing. *)
Lemma poly_rem_more_fuel (g : list float) (n : nat) :
  forall (f : list float) (m : nat),
    poly_rem n f g <> OutOfFuel -> n <= m -> poly_rem m f g = poly_rem n f g.
Proof.
  induction n as [| n IH]; intros f m Hn Hm.
  - destruct m as [| m]; [reflexivity |].
    cbn [poly_rem] in *. destruct (length f <? length g); congruence.
  - destruct m as [| m]; [lia |].
    cbn [poly_rem] in *. destruct (length f <? length g); [reflexivity |].
    destruct (eliminate f g) as [f' | e |]; cbn [bind] in *;
      [apply IH; [exact Hn | lia] | reflexivity | reflexivity].
Qed.

(** With a non-zero divisor the loop raises nothing, and what it leaves
    is shorter than the divisor. *)
Lemma poly_rem_safe (g : list float) :
  g <> [] -> negligible (last g 0%float) = false ->
  forall (fuel : nat) (f : list float),
    match poly_rem fuel f g with
    | Ok r => length r < length g
    | Raise _ => False
    | OutOfFuel => True
    end.
Proof.
  intros Hg Hlc. induction fuel as [| k IH]; intros f; cbn [poly_rem].
  - destruct (length f <? length g) eqn:E; [apply Nat.ltb_lt in E; exact E | exact I].
  - destruct (length f <? length g) eqn:E; [apply Nat.ltb_lt in E; exact E |].
    apply Nat.ltb_ge in E. unfold eliminate.
    destruct (subtract_leading_ok f g Hg Hlc E) as [f1 [E1 _]].
    rewrite E1. cbn [bind]. apply IH.
Qed.

Lemma cancels_along_terminates (g : list float) :
  g <> [] ->
  forall (n : nat) (f : list float),
    length f < n + length g -> cancels_along n f g = true ->
    exists r, poly_rem n f g = Ok r.
Proof.
  intros Hg. induction n as [| k IH]; intros f Hlen Hc; cbn [poly_rem].
  - assert (E : (length f <? length g) = true) by (apply Nat.ltb_lt; lia).
    rewrite E. exists f. reflexivity.
  - destruct (length f <? length g) eqn:E; [exists f; reflexivity |].
    cbn [cancels_along] in Hc. rewrite E in Hc. apply Nat.ltb_ge in E.
    destruct (subtract_leading f g) as [f1 | e |] eqn:E1; try discriminate.
    apply andb_prop in Hc. destruct Hc as [Hn Hc].
    assert (Hel : eliminate f g = Ok (trim f1)).
    { unfold eliminate. rewrite E1. reflexivity. }
    rewrite Hel. cbn [bind]. apply IH; [| exact Hc].
    assert (Hf : f <> []).
    { apply nonempty_length. apply nonempty_length in Hg. lia. }
    assert (H1 : cancels_along 1 f g = true).
    { cbn [cancels_along]. apply Nat.ltb_ge in E. rewrite E, E1, Hn.
      destruct (length (trim f1) <? length g); reflexivity. }
    destruct (eliminate_length f g (trim f1) E Hel) as [_ Hlt].
    specialize (Hlt Hf H1). lia.
Qed.

(** C1 (amended): for a non-empty divisor [g] whose leading coefficient
    is not negligible, the division loop raises no exception, and whenever
    it terminates the remainder it leaves in the dividend is the empty list
    or has degree strictly less than the degree of [g], the same for every
    larger iteration budget; it does terminate, within [len(f)] rounds,
    when every subtraction of the run leaves a negligible leading
    coefficient. *)
Theorem poly_rem_degree (f g : list float) :
  g <> [] -> negligible (last g 0%float) = false ->
  (forall fuel e, poly_rem fuel f g <> Raise e)
  /\ (forall fuel r, poly_rem fuel f g = Ok r ->
        (r = [] \/ (degree r < degree g)%Z)
        /\ (forall more, poly_rem (fuel + more) f g = Ok r))
  /\ (cancels_along (length f) f g = true ->
      exists r, poly_rem (length f) f g = Ok r
                /\ (r = [] \/ (degree r < degree g)%Z)).
Proof.
  intros Hg Hlc.
  assert (Hdeg : forall fuel r, poly_rem fuel f g = Ok r ->
                                r = [] \/ (degree r < degree g)%Z).
  { intros fuel r E. pose proof (poly_rem_safe g Hg Hlc fuel f) as H.
    rewrite E in H. right. unfold degree. lia. }
  split; [| split].
  - intros fuel e E. pose proof (poly_rem_safe g Hg Hlc fuel f) as H.
    rewrite E in H. exact H.
  - intros fuel r E. split; [apply (Hdeg fuel); exact E |].
    intros more. rewrite <- E. apply poly_rem_more_fuel; [congruence | lia].
  - intros Hc.
    destruct (cancels_along_terminates g Hg (length f) f) as [r E]; [| exact Hc |].
    + apply nonempty_length in Hg. lia.
    + exists r. split; [exact E | apply (Hdeg (length f)); exact E].
Qed.

Lemma poly_rem_degree_witness :
  [-1; 1]%float <> [] /\ negligible (last [-1; 1]%float 0%float) = false
  /\ poly_rem 2 [1; 0; 1]%float [-1; 1]%float = Ok [2]%float
  /\ ([2]%float = [] \/ (degree [2]%float < degree [-1; 1]%float)%Z)
  /\ (forall more, poly_rem (2 + more) [1; 0; 1]%float [-1; 1]%float = Ok [2]%float)
  /\ cancels_along (length [1; 0; 1]%float) [1; 0; 1]%float [-1; 1]%float = true
  /\ exists r, poly_rem (length [1; 0; 1]%float) [1; 0; 1]%float [-1; 1]%float = Ok r
               /\ (r = [] \/ (degree r < degree [-1; 1]%float)%Z).
Proof.
  assert (Hg : [-1; 1]%float <> []) by discriminate.
  assert (Hlc : negligible (last [-1; 1]%float 0%float) = false) by reflexivity.
  assert (Hrun : poly_rem 2 [1; 0; 1]%float [-1; 1]%float = Ok [2]%float) by reflexivity.
  assert (Hc : cancels_along (length [1; 0; 1]%float) [1; 0; 1]%float [-1; 1]%float = true)
    by reflexivity.
  destruct (poly_rem_degree [1; 0; 1]%float [-1; 1]%float Hg Hlc) as [_ [Hrem Hterm]].
  destruct (Hrem 2 [2]%float Hrun) as [Hdeg Hmore].
  split; [exact Hg |]. split; [exact Hlc |]. split; [exact Hrun |].
  split; [exact Hdeg |]. split; [exact Hmore |]. split; [exact Hc |].
  exact (Hterm Hc).
Defined.

(** C7 fails as stated: dividing the constant 1000000 by the constant 49
    takes two rounds, one more than [degree f + 1 = 1], because the first
    subtraction leaves about -1.16e-10 in the leading coefficient, which is
    not below the tolerance. *)
Lemma poly_rem_needs_more_rounds :
  [49]%float <> [] /\ negligible (last [49]%float 0%float) = false
  /\ eliminate [1000000]%float [49]%float = Ok [-0x1.0000000000000p-33]%float
  /\ ~ terminates_within_degree [1000000]%float [49]%float.
Proof.
  split; [discriminate |]. split; [reflexivity |]. split; [reflexivity |].
  intros [r H]. vm_compute in H. discriminate H.
Qed.

(** No budget is enough for this pair of finite numbers (the doubles
    nearest to 1e308 and 1e-11): the quotient overflows to infinity, the
    dividend becomes minus infinity, then NaN, and NaN is never trimmed. *)
Lemma poly_rem_diverges (fuel : nat) :
  poly_rem fuel [0x1.1ccf385ebc8ap+1023]%float [0x1.5fd7fe1796495p-37]%float
  = OutOfFuel.
Proof.
  set (g := [0x1.5fd7fe1796495p-37]%float).
  assert (E1 : eliminate [0x1.1ccf385ebc8ap+1023]%float g = Ok [neg_infinity])
    by (vm_compute; reflexivity).
  assert (E2 : eliminate [neg_infinity] g = Ok [nan]) by (vm_compute; reflexivity).
  assert (E3 : eliminate [nan] g = Ok [nan]) by (vm_compute; reflexivity).
  assert (L : forall n, poly_rem n [nan] g = OutOfFuel).
  { induction n as [| n IHn]; [reflexivity |].
    change (poly_rem (S n) [nan] g) with (f' <- eliminate [nan] g ;; poly_rem n f' g).
    rewrite E3. exact IHn. }
  destruct fuel as [| [| n]]; try reflexivity.
  change (f1 <- eliminate [0x1.1ccf385ebc8ap+1023]%float g ;;
          (if (length f1 <? length g)%nat then Ok f1
           else f2 <- eliminate f1 g ;; poly_rem n f2 g) = OutOfFuel).
  rewrite E1. cbn [bind length Nat.ltb Nat.leb]. rewrite E2. apply L.
Qed.

(** C1 fails as stated: the divisor [[1e-11]] is not empty and its leading
    coefficient is not negligible, yet the division of [[1e308]] by it
    leaves no remainder at all, since the loop never ends. *)
Lemma poly_rem_leaves_no_remainder :
  [0x1.5fd7fe1796495p-37]%float <> []
  /\ negligible (last [0x1.5fd7fe1796495p-37]%float 0%float) = false
  /\ ~ leaves_remainder_below_divisor
        [0x1.1ccf385ebc8ap+1023]%float [0x1.5fd7fe1796495p-37]%float.
Proof.
  split; [discriminate |]. split; [reflexivity |].
  intros [fuel [r [H _]]]. rewrite poly_rem_diverges in H. discriminate H.
Qed.

(** C7 (amended): for a non-empty divisor, a round of the division loop
    never lengthens the dividend and shortens it whenever the subtraction
    leaves a negligible leading coefficient; when every round of the run
    does so, the loop is over after at most [degree f + 1] rounds. *)
Theorem poly_rem_terminates_when_cancelling (f g : list float) :
  g <> [] ->
  (forall f', length g <= length f -> eliminate f g = Ok f' ->
      length f' <= length f
      /\ (cancels_along 1 f g = true -> length f' < length f))
  /\ (cancels_along (Z.to_nat (degree f + 1)) f g = true ->
      terminates_within_degree f g).
Proof.
  intros Hg. split.
  - intros f' Hle Hel.
    destruct (eliminate_length f g f' Hle Hel) as [Hno Hlt].
    split; [exact Hno |]. apply Hlt.
    apply nonempty_length. apply nonempty_length in Hg. lia.
  - intros Hc. unfold terminates_within_degree. rewrite degree_succ in *.
    apply cancels_along_terminates; [exact Hg | | exact Hc].
    apply nonempty_length in Hg. lia.
Qed.

Lemma poly_rem_terminates_when_cancelling_witness :
  [-1; 1]%float <> []
  /\ cancels_along (Z.to_nat (degree [-1; 0; 1]%float + 1))
       [-1; 0; 1]%float [-1; 1]%float = true
  /\ terminates_within_degree [-1; 0; 1]%float [-1; 1]%float.
Proof.
  assert (Hg : [-1; 1]%float <> []) by discriminate.
  split; [exact Hg |]. split; [reflexivity |].
  apply (poly_rem_terminates_when_cancelling [-1; 0; 1]%float [-1; 1]%float Hg).
  reflexivity.
Defined.

(** ** Which exceptions can come out *)

(** [ValueError] is raised at one place only, the emptiness test of
    [gcd_ring_elements]; no operation below it produces one. *)
Lemma bind_no_ValueError {A B : Type} (c : result A) (k : A -> result B) :
  no_ValueError c -> (forall a, no_ValueError (k a)) -> no_ValueError (bind c k).
Proof.
  unfold no_ValueError. intros Hc Hk H.
  apply bind_Raise_inv in H. destruct H as [H | [a [_ H]]].
  - exact (Hc H).
  - exact (Hk a H).
Qed.

Lemma foldM_no_ValueError {A B : Type} (step : A -> B -> result A) (l : list B) :
  (forall a x, no_ValueError (step a x)) -> forall a, no_ValueError (foldM step l a).
Proof.
  intros Hstep. induction l as [| x l IH]; intros a; cbn [foldM].
  - discriminate.
  - apply bind_no_ValueError; [apply Hstep | exact IH].
Qed.

Lemma mapM_no_ValueError {A B : Type} (f : A -> result B) (l : list A) :
  (forall a, no_ValueError (f a)) -> no_ValueError (mapM f l).
Proof.
  intros Hf. induction l as [| x l IH]; cbn [mapM].
  - discriminate.
  - apply bind_no_ValueError; [apply Hf | intros y].
    apply bind_no_ValueError; [exact IH | discriminate].
Qed.

Ltac by_cases_no_ValueError :=
  unfold no_ValueError; intros;
  repeat match goal with
         | |- context [match ?x with _ => _ end] => destruct x
         | |- context [if ?b then _ else _] => destruct b
         end;
  discriminate.

Lemma py_abs_no_ValueError v : no_ValueError (py_abs v).
Proof. unfold py_abs. by_cases_no_ValueError. Qed.

Lemma py_slice_no_ValueError v : no_ValueError (py_slice v).
Proof. unfold py_slice. by_cases_no_ValueError. Qed.

Lemma py_last_no_ValueError l : no_ValueError (py_last l).
Proof. unfold py_last. by_cases_no_ValueError. Qed.

Lemma py_div_no_ValueError x y : no_ValueError (py_div x y).
Proof. unfold py_div. by_cases_no_ValueError. Qed.

Lemma py_mod_no_ValueError a b : no_ValueError (py_mod a b).
Proof. unfold py_mod. by_cases_no_ValueError. Qed.

Lemma py_getitem_no_ValueError l i : no_ValueError (py_getitem l i).
Proof. unfold py_getitem. by_cases_no_ValueError. Qed.

Lemma py_setitem_no_ValueError l i x : no_ValueError (py_setitem l i x).
Proof. unfold py_setitem. by_cases_no_ValueError. Qed.

Lemma Ok_no_ValueError {A : Type} (a : A) : no_ValueError (Ok a).
Proof. discriminate. Qed.

Create HintDb no_value_error.

#[local] Hint Resolve py_abs_no_ValueError py_slice_no_ValueError
  py_last_no_ValueError py_div_no_ValueError py_mod_no_ValueError
  py_getitem_no_ValueError py_setitem_no_ValueError Ok_no_ValueError
  : no_value_error.

Ltac step_no_ValueError :=
  repeat (first [ apply bind_no_ValueError; [| intro]
                | apply foldM_no_ValueError; intros
                | apply mapM_no_ValueError; intros
                | solve [auto with no_value_error] ]).

Lemma gcd_two_no_ValueError a b : no_ValueError (gcd_two a b).
Proof. unfold gcd_two. step_no_ValueError. Qed.

Lemma gcd_integers_no_ValueError numbers : no_ValueError (gcd_integers numbers).
Proof.
  unfold gcd_integers, reduce. destruct numbers as [| x rest]; [discriminate |].
  apply foldM_no_ValueError. intros. apply gcd_two_no_ValueError.
Qed.

Lemma eliminate_no_ValueError f g : no_ValueError (eliminate f g).
Proof.
  unfold eliminate, subtract_leading, subtract_multiple, subtract_at.
  step_no_ValueError.
Qed.

Lemma poly_rem_no_ValueError fuel g : forall f, no_ValueError (poly_rem fuel f g).
Proof.
  induction fuel as [| k IH]; intros f; cbn [poly_rem];
    destruct (length f <? length g); try discriminate.
  apply bind_no_ValueError; [apply eliminate_no_ValueError | intro; apply IH].
Qed.

Lemma euclid_no_ValueError fuel : forall f g, no_ValueError (euclid fuel f g).
Proof.
  induction fuel as [| k IH]; intros f g; cbn [euclid];
    destruct (any g); try discriminate.
  apply bind_no_ValueError; [apply poly_rem_no_ValueError | intro; apply IH].
Qed.

#[local] Hint Resolve gcd_integers_no_ValueError poly_rem_no_ValueError
  euclid_no_ValueError : no_value_error.

Lemma gcd_polynomials_no_ValueError fuel polys :
  no_ValueError (gcd_polynomials fuel polys).
Proof.
  unfold gcd_polynomials. destruct polys as [| p0 rest]; [discriminate |].
  unfold fold_in. step_no_ValueError.
Qed.

Lemma gcd_ring_elements_ValueError (fuel : nat) (elements : list RingElement) :
  gcd_ring_elements fuel elements = Raise ValueError <-> elements = [].
Proof.
  split; [| intros ->; reflexivity].
  destruct elements as [| e0 rest]; [reflexivity |].
  unfold gcd_ring_elements. intros H. exfalso. revert H.
  destruct (negb (is_polynomial e0)).
  - change (no_ValueError (d <- gcd_integers (map data (e0 :: rest)) ;;
                           Ok (mkRingElement d))).
    step_no_ValueError.
  - apply gcd_polynomials_no_ValueError.
Qed.

Lemma is_in_ideal_ValueError (fuel : nat) (f : RingElement)
  (generators : list RingElement) :
  is_in_ideal fuel f generators = Raise ValueError <-> generators = [].
Proof.
  split; [| intros ->; reflexivity].
  unfold is_in_ideal. intros H.
  apply bind_Raise_inv in H. destruct H as [H | [d [_ H]]].
  - apply gcd_ring_elements_ValueError in H. exact H.
  - exfalso. revert H. destruct (negb (is_polynomial f)).
    + change (no_ValueError (r <- py_mod (data f) (data d) ;; Ok (r =? 0)%Z)).
      step_no_ValueError.
    + change (no_ValueError
                (f_coef <- py_slice (data f) ;;
                 d_coef <- py_slice (data d) ;;
                 r <- poly_rem fuel f_coef d_coef ;;
                 Ok (forallb negligible r))).
      step_no_ValueError.
Qed.

Lemma fails_with_EmptyInputError {A : Type} (r : result A) :
  fails_with r EmptyInputError <-> r = Raise ValueError.
Proof.
  unfold fails_with. split.
  - intros [e [-> He]]. destruct e; simpl in He; try discriminate. reflexivity.
  - intros ->. exists ValueError. split; reflexivity.
Qed.

(** C8: [gcd_ring_elements], and [is_in_ideal] on its generators, fail
    with the error of an empty input (the [ValueError] of line 104) exactly
    when the list is empty. *)
Theorem empty_input_error (fuel : nat) (f : RingElement) (elements : list RingElement) :
  (fails_with (gcd_ring_elements fuel elements) EmptyInputError <-> elements = [])
  /\ (fails_with (is_in_ideal fuel f elements) EmptyInputError <-> elements = []).
Proof.
  rewrite !fails_with_EmptyInputError. split.
  - apply gcd_ring_elements_ValueError.
  - apply is_in_ideal_ValueError.
Qed.

(** ** Polynomial GCD on short and degenerate lists *)

(** A one-element list never enters [for p in polys[1:]]: the copy of the
    first polynomial is returned as it is. *)
Lemma gcd_polynomials_singleton (fuel : nat) (coeffs : list float) :
  gcd_polynomials fuel [Polynomial coeffs] = Ok (Polynomial coeffs).
Proof. reflexivity. Qed.

Lemma gcd_ring_elements_singleton (fuel : nat) (coeffs : list float) :
  gcd_ring_elements fuel [Polynomial coeffs] = Ok (Polynomial coeffs).
Proof. reflexivity. Qed.

(** Folding the zero polynomial in runs no division: the accumulator is
    divided by its own leading coefficient, which needs one. *)
Lemma fold_in_zero (fuel : nat) (d : list float) :
  fold_in fuel d (Polynomial []) = (lc <- py_last d ;; mapM (fun c => py_div c lc) d).
Proof. unfold fold_in. destruct fuel; reflexivity. Qed.

Lemma mapM_py_div (lc : float) (f l : list float) :
  mapM (fun c => py_div c lc) f = Ok l -> l = map (fun c => PrimFloat.div c lc) f.
Proof.
  revert l. induction f as [| c f IH]; intros l H; cbn [mapM map] in *.
  - injection H as <-. reflexivity.
  - apply bind_Ok_inv in H. destruct H as [y [Ey H]].
    apply bind_Ok_inv in H. destruct H as [ys [Eys H]].
    injection H as <-. rewrite (IH ys Eys).
    unfold py_div in Ey. destruct (PrimFloat.eqb lc 0); [discriminate |].
    injection Ey as <-. reflexivity.
Qed.

Lemma last_map_div (lc : float) (f : list float) :
  f <> [] ->
  last (map (fun c => PrimFloat.div c lc) f) 0%float
  = PrimFloat.div (last f 0%float) lc.
Proof.
  induction f as [| c [| c' f] IH]; intros Hf; [congruence | reflexivity |].
  change (last (map (fun c => PrimFloat.div c lc) (c' :: f)) 0%float
          = PrimFloat.div (last (c' :: f) 0%float) lc).
  apply IH. discriminate.
Qed.

(** What a fold leaves in the accumulator: the polynomial [f] that
    Euclid's loop ends with, divided by its leading coefficient [lc]; the
    new leading coefficient is the float [lc / lc]. *)
Lemma fold_in_normalises (fuel : nat) (d d' : list float) (p : RingElement) :
  fold_in fuel d p = Ok d' ->
  exists g f, data p = PyList g /\ euclid fuel d g = Ok f /\ f <> []
    /\ d' = map (fun c => PrimFloat.div c (last f 0%float)) f
    /\ last d' 0%float = PrimFloat.div (last f 0%float) (last f 0%float).
Proof.
  unfold fold_in. intros H.
  apply bind_Ok_inv in H. destruct H as [g [Eg H]].
  apply bind_Ok_inv in H. destruct H as [f [Ef H]].
  apply bind_Ok_inv in H. destruct H as [lc [Elc H]].
  destruct (data p) as [n | coeffs]; [discriminate Eg |]. injection Eg as ->.
  destruct f as [| c f0]; [discriminate Elc |].
  injection Elc as <-. apply mapM_py_div in H.
  exists g, (c :: f0). split; [reflexivity |]. split; [exact Ef |].
  split; [discriminate |]. split; [exact H |].
  rewrite H. apply last_map_div. discriminate.
Qed.

(** C3: the normalisation [d = [c / lc for c in f]] sits inside the loop
    over [polys[1:]], so a one-element list is returned unnormalised:
    for [4x + 2] the result is [4x + 2], whose leading coefficient is 4,
    where the monic normalisation is [x + 0.5]. *)
Theorem gcd_polynomials_singleton_not_monic (fuel : nat) :
  gcd_ring_elements fuel [Polynomial [2; 4]%float] = Ok (Polynomial [2; 4]%float)
  /\ last [2; 4]%float 0%float <> 1%float
  /\ gcd_ring_elements (S fuel) [Polynomial [2; 4]%float; Polynomial [2; 4]%float]
     = Ok (Polynomial [0.5; 1]%float).
Proof.
  split; [apply gcd_ring_elements_singleton |]. split; [discriminate |].
  destruct fuel as [| k]; reflexivity.
Qed.

(** C9: with two zero polynomials in front of a non-zero one, the first
    fold meets an empty accumulator and an empty [g]; the Euclidean loop is
    skipped and [lc = f[-1]] raises [IndexError], where the list without
    its zero polynomials has the GCD 1.  With one zero polynomial next to
    one other generator the fold succeeds and normalises, while the list
    without the zero polynomial is returned unnormalised. *)
Theorem gcd_polynomials_zero_breaks (fuel : nat) :
  gcd_polynomials fuel [Polynomial []; Polynomial []; Polynomial [1]%float]
  = Raise IndexError
  /\ gcd_polynomials fuel [Polynomial [1]%float] = Ok (Polynomial [1]%float)
  /\ gcd_polynomials fuel [Polynomial [2; 4]%float; Polynomial []]
     = Ok (Polynomial [0.5; 1]%float)
  /\ gcd_polynomials fuel [Polynomial [2; 4]%float] = Ok (Polynomial [2; 4]%float).
Proof.
  repeat split; destruct fuel; reflexivity.
Qed.

(** C10: the one-element list holding the zero polynomial is answered by
    the zero polynomial, for every iteration budget: no loop is entered,
    nothing is raised, and no coefficient is divided. *)
Theorem gcd_ring_elements_zero_polynomial (fuel : nat) :
  gcd_ring_elements fuel [Polynomial []] = Ok (Polynomial []).
Proof. apply gcd_ring_elements_singleton. Qed.

(** ** Ideal membership *)

(** C6: when the generators are integers whose GCD is 0, [f.data % d.data]
    divides by zero: [is_in_ideal] raises [ZeroDivisionError] for every
    integer [f], also for [f = 0], where membership holds. *)
Theorem is_in_ideal_zero_gcd (fuel : nat) (f : Z) (numbers : list Z) :
  gcd_ring_elements fuel (map Integer numbers) = Ok (Integer 0) ->
  is_in_ideal fuel (Integer f) (map Integer numbers) = Raise ZeroDivisionError.
Proof.
  intros H. unfold is_in_ideal. rewrite H. reflexivity.
Qed.

Lemma is_in_ideal_zero_gcd_witness :
  gcd_ring_elements 1 (map Integer [0; 0]%Z) = Ok (Integer 0)
  /\ is_in_ideal 1 (Integer 0) (map Integer [0; 0]%Z) = Raise ZeroDivisionError.
Proof.
  split; [reflexivity |].
  apply (is_in_ideal_zero_gcd 1 0 [0; 0]%Z). reflexivity.
Defined.

(** Generators that are all integers, or all polynomials. *)
Lemma all_integers (generators : list RingElement) :
  (forall g, In g generators -> is_polynomial g = false) ->
  exists numbers, generators = map Integer numbers.
Proof.
  induction generators as [| g rest IH]; intros H.
  - exists []. reflexivity.
  - destruct IH as [numbers ->]; [intros g' Hg'; apply H; right; exact Hg' |].
    specialize (H g (or_introl eq_refl)).
    destruct g as [[n | coeffs]]; [| discriminate].
    exists (n :: numbers). reflexivity.
Qed.

Lemma gcd_ring_elements_integers (fuel : nat) (x : Z) (rest : list Z) :
  gcd_ring_elements fuel (map Integer (x :: rest))
  = Ok (Integer (fold_left Z.gcd rest x)).
Proof.
  unfold gcd_ring_elements. cbn [map is_polynomial Integer data negb].
  change (PyInt x :: map data (map Integer rest))
    with (map data (map Integer (x :: rest))).
  rewrite map_map.
  change (map (fun n => data (Integer n)) (x :: rest)) with (map PyInt (x :: rest)).
  rewrite gcd_integers_ints. reflexivity.
Qed.

Lemma gcd_polynomials_is_polynomial (fuel : nat) (polys : list RingElement)
  (d : RingElement) :
  gcd_polynomials fuel polys = Ok d -> is_polynomial d = true.
Proof.
  unfold gcd_polynomials. destruct polys as [| p0 rest]; [discriminate |].
  intros H. apply bind_Ok_inv in H. destruct H as [d0 [_ H]].
  apply bind_Ok_inv in H. destruct H as [d1 [_ H]].
  injection H as <-. reflexivity.
Qed.

(** C4 fails as stated: an integer candidate against the generator [1]
    ends in the [TypeError] of [int % list], and against two generators
    [0.0] in the [ZeroDivisionError] of the normalisation, raised before
    the candidate is looked at; neither is a [MixedRingError]. *)
Lemma is_in_ideal_mixed_other_errors :
  is_in_ideal 1 (Integer 1) [Polynomial [1]%float] = Raise TypeError
  /\ ~ fails_with (is_in_ideal 1 (Integer 1) [Polynomial [1]%float]) MixedRingError
  /\ is_in_ideal 1 (Integer 1) [Polynomial [0]%float; Polynomial [0]%float]
     = Raise ZeroDivisionError
  /\ ~ fails_with (is_in_ideal 1 (Integer 1) [Polynomial [0]%float; Polynomial [0]%float])
         MixedRingError.
Proof.
  split; [reflexivity |]. split.
  - intros [e [H He]]. vm_compute in H. injection H as <-. discriminate He.
  - split; [reflexivity |].
    intros [e [H He]]. vm_compute in H. injection H as <-. discriminate He.
Qed.

(** C4 (amended): when every generator of a non-empty list has the variant
    that the candidate does not have, [is_in_ideal] returns no boolean and
    raises no [MixedRingError]; a polynomial candidate against integers
    ends in [TypeError], and so does an integer candidate against
    polynomials whenever the GCD of the generators is computed. *)
Theorem is_in_ideal_mixed (fuel : nat) (f : RingElement)
  (generators : list RingElement) :
  generators <> [] ->
  (forall g, In g generators -> is_polynomial g = negb (is_polynomial f)) ->
  (forall b, is_in_ideal fuel f generators <> Ok b)
  /\ ~ fails_with (is_in_ideal fuel f generators) MixedRingError
  /\ (is_polynomial f = true -> is_in_ideal fuel f generators = Raise TypeError)
  /\ (is_polynomial f = false ->
      forall d, gcd_ring_elements fuel generators = Ok d ->
                is_in_ideal fuel f generators = Raise TypeError).
Proof.
  intros Hne Hall.
  assert (Hno : ~ fails_with (is_in_ideal fuel f generators) MixedRingError).
  { intros [e [_ He]]. destruct e; discriminate He. }
  destruct (is_polynomial f) eqn:Ef.
  - (* polynomial candidate, integer generators *)
    destruct (all_integers generators Hall) as [numbers ->].
    destruct numbers as [| x rest]; [exfalso; apply Hne; reflexivity |].
    assert (E : is_in_ideal fuel f (map Integer (x :: rest)) = Raise TypeError).
    { unfold is_in_ideal. rewrite gcd_ring_elements_integers. cbn [bind].
      rewrite Ef. cbn [negb].
      destruct f as [[n | coeffs]]; [discriminate Ef | reflexivity]. }
    split; [intros b; rewrite E; discriminate |].
    split; [exact Hno |]. split; [intros _; exact E | discriminate].
  - (* integer candidate, polynomial generators *)
    assert (E : forall d, gcd_ring_elements fuel generators = Ok d ->
                          is_in_ideal fuel f generators = Raise TypeError).
    { intros d Hd. unfold is_in_ideal. rewrite Hd. cbn [bind]. rewrite Ef. cbn [negb].
      assert (Hpoly : is_polynomial d = true).
      { destruct generators as [| g0 rest]; [congruence |].
        unfold gcd_ring_elements in Hd.
        rewrite (Hall g0 (or_introl eq_refl)) in Hd. cbn [negb] in Hd.
        apply gcd_polynomials_is_polynomial in Hd. exact Hd. }
      destruct f as [[n | coeffs]]; [| discriminate Ef].
      destruct d as [[m | dcoeffs]]; [discriminate Hpoly | reflexivity]. }
    split.
    + intros b Hb.
      destruct (gcd_ring_elements fuel generators) as [d | e |] eqn:Hd.
      * rewrite (E d eq_refl) in Hb. discriminate.
      * unfold is_in_ideal in Hb. rewrite Hd in Hb. discriminate.
      * unfold is_in_ideal in Hb. rewrite Hd in Hb. discriminate.
    + split; [exact Hno |]. split; [discriminate | intros _; exact E].
Qed.

Lemma is_in_ideal_mixed_witness :
  [Integer 12; Integer 18] <> []
  /\ (forall g, In g [Integer 12; Integer 18] ->
                is_polynomial g = negb (is_polynomial (Polynomial [1; 1]%float)))
  /\ is_in_ideal 1 (Polynomial [1; 1]%float) [Integer 12; Integer 18] = Raise TypeError.
Proof.
  assert (H1 : [Integer 12; Integer 18] <> []) by discriminate.
  assert (H2 : forall g, In g [Integer 12; Integer 18] ->
                         is_polynomial g = negb (is_polynomial (Polynomial [1; 1]%float))).
  { intros g [<- | [<- | []]]; reflexivity. }
  split; [exact H1 |]. split; [exact H2 |].
  apply (is_in_ideal_mixed 1 (Polynomial [1; 1]%float) [Integer 12; Integer 18] H1 H2).
  reflexivity.
Defined.

(** ** The demonstration at the end of the source

    The values that the comments of lines 141-165 announce. *)

Example demo_generator_Z :
  gcd_ring_elements 1 [Integer 12; Integer 18] = Ok (Integer 6).
Proof. reflexivity. Qed.

Example demo_membership_Z :
  is_in_ideal 1 (Integer 15) [Integer 12; Integer 18] = Ok false
  /\ is_in_ideal 1 (Integer 6) [Integer 12; Integer 18] = Ok true
  /\ is_in_ideal 1 (Integer 12) [Integer 12; Integer 18] = Ok true.
Proof. repeat split; reflexivity. Qed.

Example demo_generator_poly :
  gcd_ring_elements 3 [Polynomial [1; -1]%float; Polynomial [1; -3; 2]%float]
  = Ok (Polynomial [-1; 1]%float).
Proof. reflexivity. Qed.

Example demo_membership_poly :
  let gens_poly := [Polynomial [1; -1]%float; Polynomial [1; -3; 2]%float] in
  is_in_ideal 3 (Polynomial [1; -1]%float) gens_poly = Ok true
  /\ is_in_ideal 3 (Polynomial [1; 0; -1]%float) gens_poly = Ok true
  /\ is_in_ideal 3 (Polynomial [1; 1]%float) gens_poly = Ok false.
Proof. repeat split; reflexivity. Qed.

(** * Further properties of the integer path *)

Open Scope Z_scope.

(** [gcd_two] on two integers: the non-negative greatest common divisor,
    whatever the signs and the order of the arguments. *)
Theorem gcd_two_spec (a b : Z) :
  exists d, gcd_two (PyInt a) (PyInt b) = Ok (PyInt d)
    /\ gcd_two (PyInt b) (PyInt a) = Ok (PyInt d)
    /\ 0 <= d /\ (d | a) /\ (d | b)
    /\ (forall c, (c | a) -> (c | b) -> (c | d)).
Proof.
  exists (Z.gcd a b). rewrite !gcd_two_int. rewrite (Z.gcd_comm b a).
  repeat split.
  - apply Z.gcd_nonneg.
  - apply Z.gcd_divide_l.
  - apply Z.gcd_divide_r.
  - intros c. apply Z.gcd_greatest.
Qed.

Lemma fold_gcd_assoc (rest : list Z) (a x : Z) :
  fold_left Z.gcd rest (Z.gcd a x) = Z.gcd a (fold_left Z.gcd rest x).
Proof.
  revert x. induction rest as [| y rest IH]; intros x; cbn [fold_left].
  - reflexivity.
  - rewrite <- Z.gcd_assoc. apply IH.
Qed.

(** The GCD of a concatenation is [gcd_two] of the GCDs of its parts. *)
Theorem gcd_integers_app (numbers1 numbers2 : list Z) :
  numbers1 <> [] -> numbers2 <> [] ->
  gcd_integers (map PyInt (numbers1 ++ numbers2))
  = (d1 <- gcd_integers (map PyInt numbers1) ;;
     d2 <- gcd_integers (map PyInt numbers2) ;;
     gcd_two d1 d2).
Proof.
  destruct numbers1 as [| x1 rest1]; [congruence | intros _].
  destruct numbers2 as [| x2 rest2]; [congruence | intros _].
  change ((x1 :: rest1) ++ x2 :: rest2) with (x1 :: (rest1 ++ x2 :: rest2)).
  rewrite !gcd_integers_ints. cbn [bind]. rewrite gcd_two_int.
  rewrite fold_left_app. cbn [fold_left]. rewrite fold_gcd_assoc. reflexivity.
Qed.

Lemma gcd_integers_app_witness :
  [12; 18] <> [] /\ [-30] <> []
  /\ gcd_integers (map PyInt ([12; 18] ++ [-30]))
     = (d1 <- gcd_integers (map PyInt [12; 18]) ;;
        d2 <- gcd_integers (map PyInt [-30]) ;;
        gcd_two d1 d2).
Proof.
  assert (H1 : [12; 18] <> []) by discriminate.
  assert (H2 : [-30] <> []) by discriminate.
  split; [exact H1 |]. split; [exact H2 |].
  apply (gcd_integers_app [12; 18] [-30] H1 H2).
Defined.

(** The order of the numbers does not matter. *)
Theorem gcd_integers_permutation (numbers numbers' : list Z) :
  Permutation numbers numbers' ->
  gcd_integers (map PyInt numbers) = gcd_integers (map PyInt numbers').
Proof.
  intros HP.
  destruct numbers as [| x rest].
  { apply Permutation_nil in HP. subst. reflexivity. }
  destruct rest as [| y rest].
  { apply Permutation_length_1_inv in HP. subst. reflexivity. }
  destruct numbers' as [| x' rest'].
  { apply Permutation_sym, Permutation_nil in HP. discriminate. }
  destruct rest' as [| y' rest'].
  { apply Permutation_length in HP. discriminate. }
  rewrite !gcd_integers_ints. do 2 f_equal.
  set (l := x :: y :: rest) in *. set (l' := x' :: y' :: rest') in *.
  destruct (fold_gcd_divides (y :: rest) x) as [Hx Hrest].
  destruct (fold_gcd_divides (y' :: rest') x') as [Hx' Hrest'].
  apply Z.divide_antisym_nonneg.
  - apply fold_gcd_nonneg. discriminate.
  - apply fold_gcd_nonneg. discriminate.
  - assert (H : forall z, In z l' -> (fold_left Z.gcd (y :: rest) x | z)).
    { intros z Hz. apply Permutation_sym in HP.
      apply (Permutation_in _ HP) in Hz. destruct Hz as [<- | Hz]; auto. }
    apply fold_gcd_greatest.
    + apply H. left. reflexivity.
    + intros z Hz. apply H. right. exact Hz.
  - assert (H : forall z, In z l -> (fold_left Z.gcd (y' :: rest') x' | z)).
    { intros z Hz. apply (Permutation_in _ HP) in Hz. destruct Hz as [<- | Hz]; auto. }
    apply fold_gcd_greatest.
    + apply H. left. reflexivity.
    + intros z Hz. apply H. right. exact Hz.
Qed.

Lemma gcd_integers_permutation_witness :
  Permutation [12; -18; 30] [30; 12; -18]
  /\ gcd_integers (map PyInt [12; -18; 30]) = gcd_integers (map PyInt [30; 12; -18]).
Proof.
  assert (HP : Permutation [12; -18; 30] [30; 12; -18]).
  { apply Permutation_sym. apply (Permutation_cons_app [12; -18] [] 30). apply Permutation_refl. }
  split; [exact HP |].
  apply (gcd_integers_permutation [12; -18; 30] [30; 12; -18] HP).
Defined.

(** The result is 0 exactly when every number is 0. *)
Theorem gcd_integers_zero_iff (numbers : list Z) :
  numbers <> [] ->
  (gcd_integers (map PyInt numbers) = Ok (PyInt 0)
   <-> forall x, In x numbers -> x = 0).
Proof.
  destruct numbers as [| x rest]; [congruence | intros _].
  rewrite gcd_integers_ints.
  destruct (fold_gcd_divides rest x) as [Hx Hrest].
  split.
  - intros H. injection H as H. rewrite H in Hx, Hrest.
    intros z [<- | Hz]; apply Z.divide_0_l; auto.
  - intros H. do 2 f_equal. apply Z.divide_0_l.
    apply fold_gcd_greatest.
    + rewrite (H x (or_introl eq_refl)). apply Z.divide_0_r.
    + intros z Hz. rewrite (H z (or_intror Hz)). apply Z.divide_0_r.
Qed.

Lemma gcd_integers_zero_iff_witness :
  [0; 0; 0] <> []
  /\ (gcd_integers (map PyInt [0; 0; 0]) = Ok (PyInt 0)
      <-> forall x, In x [0; 0; 0] -> x = 0).
Proof.
  assert (H : [0; 0; 0] <> []) by discriminate.
  split; [exact H |]. apply (gcd_integers_zero_iff [0; 0; 0] H).
Defined.

(** ** The ideal generated by the integers *)

Lemma span_eq (numbers : list Z) (a b : Z) : span numbers a -> a = b -> span numbers b.
Proof. intros H <-. exact H. Qed.

Lemma span_plus (numbers : list Z) (a b : Z) :
  span numbers a -> span numbers b -> span numbers (a + b).
Proof.
  intros Ha Hb. induction Hb as [| b c n Hn Hb IH].
  - apply (span_eq numbers a); [exact Ha | lia].
  - apply (span_eq numbers ((a + b) + c * n)); [| lia].
    apply span_add; assumption.
Qed.

Lemma span_scale (numbers : list Z) (k a : Z) :
  span numbers a -> span numbers (k * a).
Proof.
  intros Ha. induction Ha as [| a c n Hn Ha IH].
  - apply (span_eq numbers 0); [constructor | lia].
  - apply (span_eq numbers (k * a + (k * c) * n)); [| lia].
    apply span_add; assumption.
Qed.

Lemma span_generator (numbers : list Z) (n : Z) : In n numbers -> span numbers n.
Proof.
  intros Hn. apply (span_eq numbers (0 + 1 * n)); [| lia].
  apply span_add; [exact Hn | constructor].
Qed.

Lemma span_gcd (numbers : list Z) (a b : Z) :
  span numbers a -> span numbers b -> span numbers (Z.gcd a b).
Proof.
  intros Ha Hb. destruct (Z.gcd_bezout a b _ eq_refl) as [u [v <-]].
  apply span_plus; apply span_scale; assumption.
Qed.

Lemma span_fold_gcd (numbers rest : list Z) (acc : Z) :
  span numbers acc -> (forall y, In y rest -> span numbers y) ->
  span numbers (fold_left Z.gcd rest acc).
Proof.
  revert acc. induction rest as [| y rest IH]; intros acc Hacc Hrest; cbn [fold_left].
  - exact Hacc.
  - apply IH.
    + apply span_gcd; [exact Hacc | apply Hrest; left; reflexivity].
    + intros z Hz. apply Hrest. right. exact Hz.
Qed.

Lemma span_divisible (numbers : list Z) (d a : Z) :
  (forall y, In y numbers -> (d | y)) -> span numbers a -> (d | a).
Proof.
  intros Hd Ha. induction Ha as [| a c n Hn Ha IH].
  - apply Z.divide_0_r.
  - apply Z.divide_add_r; [exact IH |]. apply Z.divide_mul_r. apply Hd. exact Hn.
Qed.

(** Integer membership is decided correctly: when some generator is not
    zero, [is_in_ideal] returns a boolean, and it is [True] exactly for the
    integers of the ideal that the generators span. *)
Theorem is_in_ideal_integers (fuel : nat) (f : Z) (numbers : list Z) :
  (exists x, In x numbers /\ x <> 0) ->
  exists b, is_in_ideal fuel (Integer f) (map Integer numbers) = Ok b
            /\ (b = true <-> span numbers f).
Proof.
  intros [y [Hy Hy0]].
  destruct numbers as [| x rest]; [destruct Hy |].
  set (d := fold_left Z.gcd rest x).
  destruct (fold_gcd_divides rest x) as [Hx Hrest]. fold d in Hx, Hrest.
  assert (Hdiv : forall z, In z (x :: rest) -> (d | z)).
  { intros z [<- | Hz]; auto. }
  assert (Hd0 : d <> 0).
  { intros E. apply Hy0. specialize (Hdiv y Hy). rewrite E in Hdiv.
    apply Z.divide_0_l. exact Hdiv. }
  exists (f mod d =? 0). split.
  - unfold is_in_ideal. rewrite gcd_ring_elements_integers. fold d.
    cbn [bind is_polynomial Integer data negb py_mod].
    destruct (Z.eqb_spec d 0) as [E | _]; [contradiction | reflexivity].
  - rewrite Z.eqb_eq, (Z.mod_divide f d Hd0). split.
    + intros [k ->]. apply span_scale. unfold d. apply span_fold_gcd.
      * apply span_generator. left. reflexivity.
      * intros z Hz. apply span_generator. right. exact Hz.
    + apply span_divisible. exact Hdiv.
Qed.

Lemma is_in_ideal_integers_witness :
  (exists x, In x [12; 18] /\ x <> 0)
  /\ exists b, is_in_ideal 0 (Integer 6) (map Integer [12; 18]) = Ok b
               /\ (b = true <-> span [12; 18] 6).
Proof.
  assert (H : exists x, In x [12; 18] /\ x <> 0).
  { exists 12. split; [left; reflexivity | discriminate]. }
  split; [exact H |]. apply (is_in_ideal_integers 0 6 [12; 18] H).
Defined.

Close Scope Z_scope.

(** * Further properties of the dispatcher *)

Lemma foldM_gcd_two_list (rest : list RingElement) (x : Z) :
  (exists e, In e rest /\ is_polynomial e = true) ->
  foldM gcd_two (map data rest) (PyInt x) = Raise TypeError.
Proof.
  revert x. induction rest as [| e rest IH]; intros x [e' [Hin He']].
  - destruct Hin.
  - cbn [map foldM]. destruct e as [[n | coeffs]].
    + cbn [data]. rewrite gcd_two_int. cbn [bind]. apply IH.
      destruct Hin as [<- | Hin]; [discriminate He' |].
      exists e'. split; assumption.
    + reflexivity.
Qed.

Lemma foldM_fold_in_integer (fuel : nat) (rest : list RingElement) :
  (exists e, In e rest /\ is_polynomial e = false) ->
  forall d r, foldM (fold_in fuel) rest d <> Ok r.
Proof.
  induction rest as [| e rest IH]; intros [e' [Hin He']] d r H.
  - destruct Hin.
  - cbn [foldM] in H. apply bind_Ok_inv in H. destruct H as [d' [E H]].
    destruct Hin as [<- | Hin].
    + unfold fold_in in E. destruct e as [[n | coeffs]]; [| discriminate He'].
      discriminate E.
    + apply (IH (ex_intro _ e' (conj Hin He')) d' r H).
Qed.

(** Dispatch looks at the first element only, yet a list that mixes the
    two variants never yields a generator: with an integer in front the
    call always ends in [TypeError] ([abs] of a list); with a polynomial in
    front it raises (the [TypeError] of slicing an [int], or an earlier
    error of the polynomial folds) or does not end. *)
Theorem gcd_ring_elements_mixed (fuel : nat) (elements : list RingElement) :
  (exists a, In a elements /\ is_polynomial a = true) ->
  (exists b, In b elements /\ is_polynomial b = false) ->
  (forall d, gcd_ring_elements fuel elements <> Ok d)
  /\ (forall e0 rest, elements = e0 :: rest -> is_polynomial e0 = false ->
      gcd_ring_elements fuel elements = Raise TypeError).
Proof.
  intros [a [Ha Hpa]] [b [Hb Hpb]].
  destruct elements as [| e0 rest]; [destruct Ha |].
  assert (Hint : is_polynomial e0 = false ->
                 gcd_ring_elements fuel (e0 :: rest) = Raise TypeError).
  { intros E0. unfold gcd_ring_elements. rewrite E0. cbn [negb].
    unfold gcd_integers, reduce. cbn [map].
    destruct e0 as [[n | coeffs]]; [| discriminate E0]. cbn [data].
    rewrite foldM_gcd_two_list; [reflexivity |].
    destruct Ha as [<- | Ha]; [discriminate Hpa |].
    exists a. split; assumption. }
  split.
  - intros d H. destruct (is_polynomial e0) eqn:E0.
    + unfold gcd_ring_elements in H. rewrite E0 in H. cbn [negb] in H.
      unfold gcd_polynomials in H.
      apply bind_Ok_inv in H. destruct H as [d0 [_ H]].
      apply bind_Ok_inv in H. destruct H as [d1 [H _]].
      revert H. apply foldM_fold_in_integer.
      destruct Hb as [<- | Hb]; [congruence |].
      exists b. split; assumption.
    + rewrite (Hint eq_refl) in H. discriminate H.
  - intros e0' rest' E E0. injection E as <- <-. apply Hint. exact E0.
Qed.

Lemma gcd_ring_elements_mixed_witness :
  (forall d, gcd_ring_elements 1 [Integer 4; Polynomial [1]%float] <> Ok d)
  /\ gcd_ring_elements 1 [Integer 4; Polynomial [1]%float] = Raise TypeError.
Proof.
  assert (Ha : exists a, In a [Integer 4; Polynomial [1]%float] /\ is_polynomial a = true).
  { exists (Polynomial [1]%float). split; [right; left; reflexivity | reflexivity]. }
  assert (Hb : exists b, In b [Integer 4; Polynomial [1]%float] /\ is_polynomial b = false).
  { exists (Integer 4). split; [left; reflexivity | reflexivity]. }
  destruct (gcd_ring_elements_mixed 1 [Integer 4; Polynomial [1]%float] Ha Hb) as [H1 H2].
  split; [exact H1 |]. apply (H2 (Integer 4) [Polynomial [1]%float]); reflexivity.
Defined.

(** * Further properties of polynomial division *)

(** ** The subtraction loop, coefficient by coefficient *)

Lemma list_set_nth (l : list float) (i j : nat) (x : float) :
  nth j (list_set l i x) 0%float
  = if ((j =? i) && (i <? length l))%nat then x else nth j l 0%float.
Proof.
  revert i j. induction l as [| y l IH]; intros i j.
  - cbn [list_set length]. rewrite andb_false_r. reflexivity.
  - destruct i as [| i], j as [| j]; cbn [list_set nth length]; try reflexivity.
    rewrite IH. reflexivity.
Qed.

Lemma subtract_at_eq (coef : float) (g f : list float) (deg_diff i : nat) :
  i < length g -> i + deg_diff < length f ->
  subtract_at coef g deg_diff f i
  = Ok (list_set f (i + deg_diff)
          (PrimFloat.sub (nth (i + deg_diff) f 0%float)
                         (PrimFloat.mul coef (nth i g 0%float)))).
Proof.
  intros Hg Hf. unfold subtract_at, py_getitem, py_setitem.
  rewrite (nth_error_nth' f 0%float Hf), (nth_error_nth' g 0%float Hg).
  cbn [bind]. apply Nat.ltb_lt in Hf. rewrite Hf. reflexivity.
Qed.

Lemma foldM_subtract_spec (coef : float) (g : list float) (deg_diff n : nat) :
  forall (s : nat) (f : list float),
    s + n <= length g -> s + n + deg_diff <= length f ->
    exists f', foldM (subtract_at coef g deg_diff) (seq s n) f = Ok f'
      /\ length f' = length f
      /\ forall j, nth j f' 0%float
                   = if ((s + deg_diff <=? j) && (j <? s + n + deg_diff))%nat
                     then PrimFloat.sub (nth j f 0%float)
                            (PrimFloat.mul coef (nth (j - deg_diff) g 0%float))
                     else nth j f 0%float.
Proof.
  induction n as [| n IH]; intros s f Hg Hf; cbn [seq foldM].
  - exists f. split; [reflexivity |]. split; [reflexivity |].
    intros j. destruct (s + deg_diff <=? j) eqn:E1; [| reflexivity].
    destruct (j <? s + 0 + deg_diff) eqn:E2; [| reflexivity].
    apply Nat.leb_le in E1. apply Nat.ltb_lt in E2. lia.
  - rewrite subtract_at_eq by lia. cbn [bind].
    set (f1 := list_set f (s + deg_diff) _).
    destruct (IH (S s) f1) as [f' [E [L Hnth]]].
    + lia.
    + unfold f1. rewrite list_set_length. lia.
    + exists f'. split; [exact E |]. split.
      * rewrite L. unfold f1. apply list_set_length.
      * intros j. rewrite Hnth. unfold f1. rewrite !list_set_nth.
        assert (Hin : (s + deg_diff <? length f) = true) by (apply Nat.ltb_lt; lia).
        rewrite Hin, andb_true_r.
        destruct (Nat.eqb_spec j (s + deg_diff)) as [-> | Hne].
        -- replace (S s + deg_diff <=? s + deg_diff) with false
             by (symmetry; apply Nat.leb_gt; lia).
           replace (s + deg_diff <=? s + deg_diff) with true
             by (symmetry; apply Nat.leb_le; lia).
           replace (s + deg_diff <? s + S n + deg_diff) with true
             by (symmetry; apply Nat.ltb_lt; lia).
           cbn [andb]. replace (s + deg_diff - deg_diff) with s by lia. reflexivity.
        -- replace (s + S n + deg_diff) with (S s + n + deg_diff) by lia.
           destruct (S s + deg_diff <=? j) eqn:E1.
           ++ replace (s + deg_diff <=? j) with true
                by (symmetry; apply Nat.leb_le; apply Nat.leb_le in E1; lia).
              reflexivity.
           ++ replace (s + deg_diff <=? j) with false; [reflexivity |].
              symmetry. apply Nat.leb_gt. apply Nat.leb_gt in E1. lia.
Qed.

(** The [for] loop computes [f - coef * x^deg_diff * g] in place: entry
    [j] becomes [f[j] - coef * g[j - deg_diff]] for the [len(g)] indices
    from [deg_diff] on, and every other entry, and the length, stay. *)
Theorem subtract_multiple_spec (f g : list float) (coef : float) (deg_diff : nat) :
  length g + deg_diff <= length f ->
  exists f', subtract_multiple f g coef deg_diff = Ok f'
    /\ length f' = length f
    /\ forall j, nth j f' 0%float
                 = if ((deg_diff <=? j) && (j <? length g + deg_diff))%nat
                   then PrimFloat.sub (nth j f 0%float)
                          (PrimFloat.mul coef (nth (j - deg_diff) g 0%float))
                   else nth j f 0%float.
Proof.
  intros H. unfold subtract_multiple.
  apply (foldM_subtract_spec coef g deg_diff (length g) 0 f); simpl; lia.
Qed.

Lemma subtract_multiple_spec_witness :
  length [-1; 1]%float + 1 <= length [-1; 0; 1]%float
  /\ exists f', subtract_multiple [-1; 0; 1]%float [-1; 1]%float 1%float 1 = Ok f'
    /\ length f' = length [-1; 0; 1]%float
    /\ forall j, nth j f' 0%float
                 = if ((1 <=? j) && (j <? length [-1; 1]%float + 1))%nat
                   then PrimFloat.sub (nth j [-1; 0; 1]%float 0%float)
                          (PrimFloat.mul 1%float (nth (j - 1) [-1; 1]%float 0%float))
                   else nth j [-1; 0; 1]%float 0%float.
Proof.
  assert (H : length [-1; 1]%float + 1 <= length [-1; 0; 1]%float) by (simpl; lia).
  split; [exact H |].
  apply (subtract_multiple_spec [-1; 0; 1]%float [-1; 1]%float 1%float 1 H).
Defined.

Lemma last_nth_pred (l : list float) :
  last l 0%float = nth (length l - 1) l 0%float.
Proof.
  induction l as [| x [| y l] IH]; try reflexivity.
  change (last (x :: y :: l) 0%float) with (last (y :: l) 0%float).
  rewrite IH. cbn [length]. replace (S (S (length l)) - 1) with (S (length l - 0)) by lia.
  cbn [nth]. replace (S (length l) - 1) with (length l - 0) by lia. reflexivity.
Qed.

(** What the subtraction leaves on top of the dividend. *)
Lemma subtract_leading_last (f g : list float) :
  g <> [] -> negligible (last g 0%float) = false -> length g <= length f ->
  exists f', subtract_leading f g = Ok f' /\ length f' = length f
    /\ last f' 0%float
       = PrimFloat.sub (last f 0%float)
           (PrimFloat.mul (PrimFloat.div (last f 0%float) (last g 0%float))
                          (last g 0%float)).
Proof.
  intros Hg Hlc Hlen. unfold subtract_leading.
  assert (Hg' : 0 < length g) by (apply nonempty_length; exact Hg).
  assert (Hf : f <> []) by (apply nonempty_length; lia).
  rewrite (py_last_cons f Hf), (py_last_cons g Hg). cbn [bind].
  rewrite py_div_nonzero by exact Hlc. cbn [bind].
  unfold subtract_multiple.
  destruct (foldM_subtract_spec (PrimFloat.div (last f 0%float) (last g 0%float))
              g (length f - length g) (length g) 0 f)
    as [f' [E [L Hnth]]]; [simpl; lia | simpl; lia |].
  cbn [Nat.add] in Hnth.
  exists f'. split; [exact E |]. split; [exact L |].
  rewrite (last_nth_pred f'), L, Hnth, (last_nth_pred f), (last_nth_pred g).
  replace (length f - length g <=? length f - 1) with true
    by (symmetry; apply Nat.leb_le; lia).
  replace (length f - 1 <? length g + (length f - length g)) with true
    by (symmetry; apply Nat.ltb_lt; lia).
  cbn [andb].
  replace (length f - 1 - (length f - length g)) with (length g - 1) by lia.
  reflexivity.
Qed.

(** ** The trimming loop *)

Lemma trimmed_fixed (f : list float) : trimmed f -> trim f = f.
Proof.
  intros [-> | H]; [reflexivity |].
  unfold trim. destruct f as [| c l]; [reflexivity |].
  cbn [length trim_loop]. rewrite H. reflexivity.
Qed.

Lemma trim_loop_spec (rounds : nat) :
  forall f, length f <= rounds ->
    trimmed (trim_loop rounds f)
    /\ exists k, k <= length f /\ trim_loop rounds f = firstn k f
                 /\ forallb negligible (skipn k f) = true.
Proof.
  induction rounds as [| n IH]; intros f Hlen.
  - destruct f as [| c l]; [| simpl in Hlen; lia].
    split; [left; reflexivity |]. exists 0. repeat split. lia.
  - destruct f as [| c l].
    + split; [left; reflexivity |]. exists 0. repeat split. lia.
    + cbn [trim_loop]. destruct (negligible (last (c :: l) 0%float)) eqn:E.
      * destruct (IH (removelast (c :: l))) as [Ht [k [Hk [Hfirst Hskip]]]].
        { rewrite removelast_length. simpl in *. lia. }
        split; [exact Ht |].
        rewrite removelast_length in Hk. cbn [length pred] in Hk.
        exists k. split; [cbn [length]; lia |]. split.
        -- rewrite Hfirst. apply firstn_removelast. cbn [length]. lia.
        -- rewrite (app_removelast_last 0%float (l := c :: l)) by discriminate.
           rewrite skipn_app, forallb_app, Hskip.
           rewrite removelast_length. cbn [length pred].
           replace (k - length l) with 0 by lia.
           cbn [skipn forallb andb]. rewrite E. reflexivity.
      * split; [right; exact E |].
        exists (length (c :: l)). split; [lia |]. split.
        -- symmetry. apply firstn_all.
        -- rewrite skipn_all. reflexivity.
Qed.

Lemma trim_trimmed (f : list float) : trimmed (trim f).
Proof. apply (trim_loop_spec (length f) f (le_n _)). Qed.

(** Trimming cuts a suffix of negligible coefficients off and stops at
    the first coefficient from the top that is not negligible: the result
    is a prefix of the list, everything dropped is negligible, and what is
    left is empty or ends with a coefficient that is not negligible, so
    that trimming again changes nothing. *)
Theorem trim_spec (f : list float) :
  (exists k, k <= length f /\ trim f = firstn k f
             /\ forallb negligible (skipn k f) = true)
  /\ trimmed (trim f)
  /\ trim (trim f) = trim f.
Proof.
  destruct (trim_loop_spec (length f) f (le_n _)) as [Ht Hk].
  split; [exact Hk |]. split; [exact Ht |]. apply trimmed_fixed. exact Ht.
Qed.

(** ** What the division loop leaves, and when it fails *)

Lemma poly_rem_keeps_trimmed (g : list float) (fuel : nat) :
  forall f r, trimmed f -> poly_rem fuel f g = Ok r -> trimmed r.
Proof.
  induction fuel as [| k IH]; intros f r Hf H; cbn [poly_rem] in H;
    destruct (length f <? length g); try discriminate;
    try (injection H as <-; exact Hf).
  apply bind_Ok_inv in H. destruct H as [f' [E H]].
  apply (IH f' r); [| exact H].
  unfold eliminate in E. apply bind_Ok_inv in E. destruct E as [f1 [_ E]].
  injection E as <-. apply trim_trimmed.
Qed.

Lemma poly_rem_leaves_trimmed (fuel : nat) (f g r : list float) :
  length g <= length f -> poly_rem fuel f g = Ok r -> trimmed r.
Proof.
  intros Hlen H. destruct fuel as [| k]; cbn [poly_rem] in H;
    apply Nat.ltb_ge in Hlen; rewrite Hlen in H; [discriminate |].
  apply bind_Ok_inv in H. destruct H as [f' [E H]].
  apply (poly_rem_keeps_trimmed g k f' r); [| exact H].
  unfold eliminate in E. apply bind_Ok_inv in E. destruct E as [f1 [_ E]].
  injection E as <-. apply trim_trimmed.
Qed.

(** Once the loop has run at least one round, its remainder is trimmed:
    empty, or ending with a coefficient that is not negligible. *)
Theorem poly_rem_trimmed (fuel : nat) (f g r : list float) :
  length g <= length f -> poly_rem fuel f g = Ok r -> trimmed r.
Proof. apply poly_rem_leaves_trimmed. Qed.

Lemma poly_rem_trimmed_witness :
  length [-1; 1]%float <= length [1; 1]%float
  /\ poly_rem 2 [1; 1]%float [-1; 1]%float = Ok [2]%float
  /\ trimmed [2]%float.
Proof.
  assert (H1 : length [-1; 1]%float <= length [1; 1]%float) by (simpl; lia).
  assert (H2 : poly_rem 2 [1; 1]%float [-1; 1]%float = Ok [2]%float) by reflexivity.
  split; [exact H1 |]. split; [exact H2 |].
  apply (poly_rem_trimmed 2 [1; 1]%float [-1; 1]%float [2]%float H1 H2).
Defined.

(** Division by a zero polynomial is not refused by a check of its own:
    with the empty list as divisor the first round raises [IndexError], and
    with a divisor whose last coefficient is [0.0] (or [-0.0]) it raises
    [ZeroDivisionError] as soon as the dividend is long enough. *)
Theorem poly_rem_zero_divisor (fuel : nat) (f g : list float) :
  (g = [] -> poly_rem (S fuel) f g = Raise IndexError)
  /\ (g <> [] -> PrimFloat.eqb (last g 0%float) 0%float = true ->
      length g <= length f ->
      poly_rem (S fuel) f g = Raise ZeroDivisionError).
Proof.
  split.
  - intros ->. cbn [poly_rem length]. destruct f; reflexivity.
  - intros Hg Hz Hlen. cbn [poly_rem].
    assert (Hf : f <> []).
    { apply nonempty_length. apply nonempty_length in Hg. lia. }
    apply Nat.ltb_ge in Hlen. rewrite Hlen.
    unfold eliminate, subtract_leading.
    rewrite (py_last_cons f Hf), (py_last_cons g Hg). cbn [bind].
    unfold py_div. rewrite Hz. reflexivity.
Qed.

(** ** Dividends that are not finite *)

Lemma residual_non_finite (x gl : float) :
  non_finite x -> PrimFloat.eqb gl 0%float = false ->
  PrimFloat.sub x (PrimFloat.mul (PrimFloat.div x gl) gl) = nan.
Proof.
  intros Hx Hgl.
  rewrite <- (SF2Prim_Prim2SF (PrimFloat.sub _ _)).
  rewrite sub_spec, mul_spec, div_spec.
  rewrite eqb_spec in Hgl.
  replace (Prim2SF 0) with (S754_zero false) in Hgl by reflexivity.
  unfold SF64sub, SF64mul, SF64div.
  destruct Hx as [-> | [-> | ->]].
  - replace (Prim2SF nan) with S754_nan by reflexivity. reflexivity.
  - replace (Prim2SF infinity) with (S754_infinity false) by reflexivity.
    destruct (Prim2SF gl) as [s | s | | s m e]; try destruct s;
      try discriminate Hgl; reflexivity.
  - replace (Prim2SF neg_infinity) with (S754_infinity true) by reflexivity.
    destruct (Prim2SF gl) as [s | s | | s m e]; try destruct s;
      try discriminate Hgl; reflexivity.
Qed.

Lemma nonzero_of_not_negligible (c : float) :
  negligible c = false -> PrimFloat.eqb c 0%float = false.
Proof.
  intros H. destruct (PrimFloat.eqb c 0) eqn:E; [| reflexivity].
  apply zero_negligible in E. congruence.
Qed.

(** A dividend whose leading coefficient is NaN or infinite is never
    divided to the end: the subtraction turns the leading coefficient into
    NaN, which the trimming loop never pops, so the loop guard stays true
    for every number of rounds. *)
Theorem poly_rem_non_finite_diverges (f g : list float) :
  g <> [] -> negligible (last g 0%float) = false -> length g <= length f ->
  non_finite (last f 0%float) ->
  forall fuel, poly_rem fuel f g = OutOfFuel.
Proof.
  intros Hg Hlc Hlen Hnf fuel. revert f Hlen Hnf.
  induction fuel as [| k IH]; intros f Hlen Hnf; cbn [poly_rem];
    pose proof Hlen as Hguard; apply Nat.ltb_ge in Hguard; rewrite Hguard;
    [reflexivity |].
  destruct (subtract_leading_last f g Hg Hlc Hlen) as [f' [E [L Hlast]]].
  rewrite (residual_non_finite _ _ Hnf (nonzero_of_not_negligible _ Hlc)) in Hlast.
  unfold eliminate. rewrite E. cbn [bind].
  assert (Ht : trim f' = f').
  { apply trimmed_fixed. right. rewrite Hlast. reflexivity. }
  rewrite Ht. apply IH; [lia |]. left. exact Hlast.
Qed.

Lemma poly_rem_non_finite_diverges_witness :
  [2]%float <> [] /\ negligible (last [2]%float 0%float) = false
  /\ length [2]%float <= length [1; infinity]%float
  /\ non_finite (last [1; infinity]%float 0%float)
  /\ forall fuel, poly_rem fuel [1; infinity]%float [2]%float = OutOfFuel.
Proof.
  assert (H1 : [2]%float <> []) by discriminate.
  assert (H2 : negligible (last [2]%float 0%float) = false) by reflexivity.
  assert (H3 : length [2]%float <= length [1; infinity]%float) by (simpl; lia).
  assert (H4 : non_finite (last [1; infinity]%float 0%float)).
  { right. left. reflexivity. }
  split; [exact H1 |]. split; [exact H2 |]. split; [exact H3 |]. split; [exact H4 |].
  apply (poly_rem_non_finite_diverges [1; infinity]%float [2]%float H1 H2 H3 H4).
Defined.

(** * Further properties of the polynomial GCD and of membership *)

Lemma foldM_last_step {A B : Type} (step : A -> B -> result A) (l : list B) :
  l <> [] ->
  forall a r, foldM step l a = Ok r -> exists a' x, In x l /\ step a' x = Ok r.
Proof.
  induction l as [| x l IH]; intros Hne a r H; [congruence |].
  cbn [foldM] in H. apply bind_Ok_inv in H. destruct H as [a1 [E H]].
  destruct l as [| y l].
  - cbn [foldM] in H. injection H as <-. exists a, x. split; [left; reflexivity | exact E].
  - destruct (IH ltac:(discriminate) a1 r H) as [a' [z [Hz Hstep]]].
    exists a', z. split; [right; exact Hz | exact Hstep].
Qed.

Lemma fold_in_leading_nonzero (fuel : nat) (d d' : list float) (p : RingElement) :
  fold_in fuel d p = Ok d' ->
  exists lc, PrimFloat.eqb lc 0%float = false
             /\ d' <> [] /\ last d' 0%float = PrimFloat.div lc lc.
Proof.
  unfold fold_in. intros H.
  apply bind_Ok_inv in H. destruct H as [g [_ H]].
  apply bind_Ok_inv in H. destruct H as [f [_ H]].
  apply bind_Ok_inv in H. destruct H as [lc [Elc H]].
  destruct f as [| c f0]; [discriminate Elc |].
  assert (E : lc = last (c :: f0) 0%float) by (injection Elc as <-; reflexivity).
  clear Elc. exists lc. split; [| split].
  - cbn [mapM] in H. apply bind_Ok_inv in H. destruct H as [y [Ey _]].
    unfold py_div in Ey. destruct (PrimFloat.eqb lc 0%float); [discriminate Ey | reflexivity].
  - apply mapM_py_div in H. rewrite H. discriminate.
  - apply mapM_py_div in H. rewrite H, last_map_div by discriminate.
    rewrite <- E. reflexivity.
Qed.

(** For two or more polynomials, a generator that is returned is never
    the zero polynomial: its coefficient list is not empty, and its leading
    coefficient is the float quotient [lc / lc] of a non-zero [lc] by
    itself. *)
Theorem gcd_polynomials_result (fuel : nat) (p0 p1 d : RingElement)
  (rest : list RingElement) :
  gcd_polynomials fuel (p0 :: p1 :: rest) = Ok d ->
  exists coeffs lc, d = Polynomial coeffs /\ coeffs <> []
    /\ PrimFloat.eqb lc 0%float = false
    /\ last coeffs 0%float = PrimFloat.div lc lc.
Proof.
  unfold gcd_polynomials. intros H.
  apply bind_Ok_inv in H. destruct H as [d0 [_ H]].
  apply bind_Ok_inv in H. destruct H as [coeffs [H E]].
  injection E as <-.
  destruct (foldM_last_step (fold_in fuel) (p1 :: rest) ltac:(discriminate) d0 coeffs H)
    as [d1 [p [_ Hstep]]].
  destruct (fold_in_leading_nonzero fuel d1 coeffs p Hstep) as [lc [Hlc [Hne Hlast]]].
  exists coeffs, lc. split; [reflexivity |]. split; [exact Hne |].
  split; [exact Hlc | exact Hlast].
Qed.

Lemma gcd_polynomials_result_witness :
  gcd_polynomials 3 [Polynomial [1; -1]%float; Polynomial [1; -3; 2]%float]
  = Ok (Polynomial [-1; 1]%float)
  /\ exists coeffs lc, Polynomial [-1; 1]%float = Polynomial coeffs /\ coeffs <> []
       /\ PrimFloat.eqb lc 0%float = false
       /\ last coeffs 0%float = PrimFloat.div lc lc.
Proof.
  assert (H : gcd_polynomials 3 [Polynomial [1; -1]%float; Polynomial [1; -3; 2]%float]
              = Ok (Polynomial [-1; 1]%float)) by reflexivity.
  split; [exact H |].
  apply (gcd_polynomials_result 3 (Polynomial [1; -1]%float)
           (Polynomial [1; -3; 2]%float) (Polynomial [-1; 1]%float) [] H).
Defined.

Lemma forallb_last (p : float -> bool) (l : list float) :
  l <> [] -> forallb p l = true -> p (last l 0%float) = true.
Proof.
  induction l as [| x [| y l] IH]; intros Hne H; [congruence | |].
  - cbn [forallb] in H. apply andb_prop in H. apply H.
  - change (last (x :: y :: l) 0%float) with (last (y :: l) 0%float).
    apply IH; [discriminate |].
    cbn [forallb] in H |- *. apply andb_prop in H. apply H.
Qed.

(** Polynomial membership, when the candidate is at least as long as the
    generator: the answer is [True] exactly when the division leaves the
    empty remainder (a remainder that is left is trimmed, so its leading
    coefficient fails the final test). *)
Theorem is_in_ideal_polynomial (fuel : nat) (f d : list float) (b : bool)
  (generators : list RingElement) :
  gcd_ring_elements fuel generators = Ok (Polynomial d) ->
  length d <= length f ->
  is_in_ideal fuel (Polynomial f) generators = Ok b ->
  (b = true <-> poly_rem fuel f d = Ok []).
Proof.
  intros Hd Hlen H. unfold is_in_ideal in H. rewrite Hd in H.
  cbn [bind is_polynomial Polynomial data negb py_slice] in H.
  apply bind_Ok_inv in H. destruct H as [r [Er H]]. injection H as <-.
  rewrite Er. split.
  - intros Hall. f_equal.
    destruct (poly_rem_leaves_trimmed fuel f d r Hlen Er) as [-> | Hlast]; [reflexivity |].
    destruct r as [| c r0]; [reflexivity |].
    rewrite (forallb_last negligible (c :: r0)) in Hlast; [discriminate | discriminate | exact Hall].
  - intros E. injection E as ->. reflexivity.
Qed.

Lemma is_in_ideal_polynomial_witness :
  gcd_ring_elements 3 [Polynomial [1; -1]%float; Polynomial [1; -3; 2]%float]
  = Ok (Polynomial [-1; 1]%float)
  /\ length [-1; 1]%float <= length [1; 0; -1]%float
  /\ is_in_ideal 3 (Polynomial [1; 0; -1]%float)
       [Polynomial [1; -1]%float; Polynomial [1; -3; 2]%float] = Ok true
  /\ (true = true <-> poly_rem 3 [1; 0; -1]%float [-1; 1]%float = Ok []).
Proof.
  assert (H1 : gcd_ring_elements 3 [Polynomial [1; -1]%float; Polynomial [1; -3; 2]%float]
               = Ok (Polynomial [-1; 1]%float)) by reflexivity.
  assert (H2 : length [-1; 1]%float <= length [1; 0; -1]%float) by (simpl; lia).
  assert (H3 : is_in_ideal 3 (Polynomial [1; 0; -1]%float)
                 [Polynomial [1; -1]%float; Polynomial [1; -3; 2]%float] = Ok true)
    by reflexivity.
  split; [exact H1 |]. split; [exact H2 |]. split; [exact H3 |].
  apply (is_in_ideal_polynomial 3 [1; 0; -1]%float [-1; 1]%float true
           [Polynomial [1; -1]%float; Polynomial [1; -3; 2]%float] H1 H2 H3).
Defined.
